(** * Navidrome / Subsonic client of the Picard plugin: a shallow embedding

    The development follows [picard_navidrome_integration_(0.7.0-stable).py]:
    the response cache ([NavidromeCache], the module-level [_global_cache]),
    the HTTP helper [SubsonicClient._request], the catalogue operations built
    on it and the two-pass generator [iter_all_songs_stream].

    Python values that travel through the client are the values produced by
    [json.loads]; they are modelled by the type [json].  Strings are byte
    strings holding UTF-8 text.  JSON numbers are the integers (identifiers
    and counters of the Subsonic wire format); numbers with a fraction or an
    exponent are not represented. *)

From Stdlib Require Import ZArith List Bool Lia.
From Stdlib Require Import Strings.String Strings.Ascii.
From Stdlib Require Import Numbers.DecimalString Numbers.DecimalZ.
From stdpp Require Import gmap strings list.

Set Warnings "-register-all".

Open Scope Z_scope.
Open Scope string_scope.
Open Scope list_scope.

(** ** Values, exceptions *)

Inductive json : Type :=
| JNull
| JBool (b : bool)
| JNum (z : Z)
| JStr (s : string)
| JArr (items : list json)
| JObj (fields : list (string * json)).

(** The exceptions the client can see.  All are subclasses of [Exception],
    so every [except Exception] clause catches them. *)
Inductive exn : Type :=
| ValueError (msg : string)
| TypeError
| AttributeError
| KeyError.

Inductive result (A : Type) : Type :=
| Ok (a : A)
| Raise (e : exn).
Arguments Ok {A} a.
Arguments Raise {A} e.

(** ** Python primitives on JSON values *)

(** [str(n)] for an [int]. *)
Definition py_str_int (z : Z) : string := NilZero.string_of_int (Z.to_int z).

(** [d.get(k)] on the items of a dict. *)
Fixpoint assoc {A : Type} (k : string) (d : list (string * A)) : option A :=
  match d with
  | [] => None
  | (k', v) :: d' => if String.eqb k k' then Some v else assoc k d'
  end.

(** [d[k] = v] on the items of a dict: an existing key keeps its position. *)
Fixpoint dict_set {A : Type} (k : string) (v : A) (d : list (string * A))
  : list (string * A) :=
  match d with
  | [] => [(k, v)]
  | (k', v') :: d' =>
      if String.eqb k k' then (k, v) :: d' else (k', v') :: dict_set k v d'
  end.

(** [{**d1, **d2}]. *)
Definition dict_merge {A : Type} (d1 d2 : list (string * A)) : list (string * A) :=
  fold_left (fun d kv => dict_set (fst kv) (snd kv) d) d2 d1.

(** [x.get(k, dflt)]: only a dict has the method. *)
Definition py_get (x : json) (k : string) (dflt : json) : result json :=
  match x with
  | JObj d => Ok (default dflt (assoc k d))
  | _ => Raise AttributeError
  end.

(** [isinstance(x, dict)]. *)
Definition is_dict (x : json) : bool :=
  match x with JObj _ => true | _ => false end.

(** [x is not None]. *)
Definition is_not_None (x : json) : bool :=
  match x with JNull => false | _ => true end.

(** Truth value of [x], as tested by [if x], [not x] and [x or y]. *)
Definition py_truthy (x : json) : bool :=
  match x with
  | JNull => false
  | JBool b => b
  | JNum z => negb (z =? 0)%Z
  | JStr s => negb (String.eqb s "")
  | JArr l => match l with [] => false | _ => true end
  | JObj d => match d with [] => false | _ => true end
  end.

(** The characters of a UTF-8 string: a byte in [0x80, 0xC0) continues the
    character begun before it. *)
Definition is_continuation (c : ascii) : bool :=
  let n := N_of_ascii c in (128 <=? n)%N && (n <? 192)%N.

Fixpoint py_chars_from (cur : string) (s : string) : list string :=
  match s with
  | EmptyString => [cur]
  | String c s' =>
      if is_continuation c then py_chars_from (cur +:+ String c EmptyString) s'
      else cur :: py_chars_from (String c EmptyString) s'
  end.

Definition py_chars (s : string) : list string :=
  match s with
  | EmptyString => []
  | String c s' => py_chars_from (String c EmptyString) s'
  end.

(** [iter(x)], run to the end: the elements of a list, the characters of a
    string, the keys of a dict; anything else is not iterable. *)
Definition py_iter (x : json) : result (list json) :=
  match x with
  | JArr l => Ok l
  | JStr s => Ok (map JStr (py_chars s))
  | JObj d => Ok (map (fun kv => JStr (fst kv)) d)
  | _ => Raise TypeError
  end.

(** [len(x)]. *)
Definition py_len (x : json) : result Z :=
  match x with
  | JArr l => Ok (Z.of_nat (length l))
  | JStr s => Ok (Z.of_nat (length (py_chars s)))
  | JObj d => Ok (Z.of_nat (length d))
  | _ => Raise TypeError
  end.

(** [needle in hay] for strings. *)
Fixpoint contains (needle hay : string) : bool :=
  String.prefix needle hay
  || match hay with
     | EmptyString => false
     | String _ hay' => contains needle hay'
     end.

(** [k in x] for a string [k]. *)
Definition py_in (k : string) (x : json) : result bool :=
  match x with
  | JObj d => Ok (bool_decide (is_Some (assoc k d)))
  | JArr l => Ok (existsb (fun v => match v with JStr s => String.eqb s k | _ => false end) l)
  | JStr s => Ok (contains k s)
  | _ => Raise TypeError
  end.

(** [x[k]] for a string [k]: lists and strings take integer indices only. *)
Definition py_getitem (x : json) (k : string) : result json :=
  match x with
  | JObj d => match assoc k d with Some v => Ok v | None => Raise KeyError end
  | _ => Raise TypeError
  end.

(** ** URL encoding ([urllib.parse.quote_plus], [urllib.parse.urlencode]) *)

Definition in_range (lo hi n : N) : bool := (lo <=? n)%N && (n <=? hi)%N.

(** Letters, digits and [_.-~] are never quoted. *)
Definition always_safe (c : ascii) : bool :=
  let n := N_of_ascii c in
  in_range 65 90 n || in_range 97 122 n || in_range 48 57 n
  || (n =? 95)%N || (n =? 46)%N || (n =? 45)%N || (n =? 126)%N.

Definition hex_digit (n : N) : ascii :=
  if (n <? 10)%N then ascii_of_N (48 + n) else ascii_of_N (55 + n).

Definition quote_byte (c : ascii) : string :=
  if always_safe c then String c EmptyString
  else if Ascii.eqb c " "%char then "+"
  else let n := N_of_ascii c in
       String "%"%char
         (String (hex_digit (n / 16)) (String (hex_digit (n mod 16)) EmptyString)).

Fixpoint quote_plus (s : string) : string :=
  match s with
  | EmptyString => EmptyString
  | String c s' => quote_byte c +:+ quote_plus s'
  end.

(** [urlencode] of string keys and string values; on such values the
    [doseq=True] form gives the same text. *)
Definition urlencode (pairs : list (string * string)) : string :=
  String.concat "&"
    (map (fun kv => quote_plus (fst kv) +:+ "=" +:+ quote_plus (snd kv)) pairs).

(** ** The outside world *)

Inductive http_method : Type := GET | POST.

(** What [urllib.request.urlopen] is given: the [Request] object, the SSL
    context (verifying or not) and the timeout. *)
Record request : Type := {
  req_method : http_method;
  req_url : string;
  req_data : option string;
  req_verify : bool;
  req_timeout : Z
}.

(** The parts of the Python runtime and of the network that the client
    calls and that are not defined here.  [urlopen] answers a request, given
    the requests sent before it, with the text of the exception it raises or
    with the decoded body; [json_loads] likewise. [random_choices k] is the
    salt drawn for the request sent after [k] earlier ones. *)
Class PyEnv : Type := {
  md5_hexdigest : string -> string;
  random_choices : nat -> string;
  repr_str : string -> string;
  int_of_str : string -> option Z;
  urlopen : list request -> request -> string + string;
  json_loads : string -> string + json
}.

Section Client.
Context `{PyEnv}.

(** [repr(x)] and [str(x)]. *)
Fixpoint py_repr (x : json) : string :=
  match x with
  | JNull => "None"
  | JBool true => "True"
  | JBool false => "False"
  | JNum z => py_str_int z
  | JStr s => repr_str s
  | JArr l => "[" +:+ String.concat ", " (map py_repr l) +:+ "]"
  | JObj d =>
      "{" +:+ String.concat ", "
                (map (fun kv => repr_str (fst kv) +:+ ": " +:+ py_repr (snd kv)) d)
          +:+ "}"
  end.

Definition py_str (x : json) : string :=
  match x with
  | JStr s => s
  | _ => py_repr x
  end.

(** [int(x)]; [None] when it raises. *)
Definition py_int (x : json) : option Z :=
  match x with
  | JNum z => Some z
  | JBool b => Some (if b then 1 else 0)
  | JStr s => int_of_str s
  | _ => None
  end.

(** ** NavidromeCache and the module-level cache *)

(** [NavidromeCache.get]: [None] when the key is absent. *)
Definition NavidromeCache_get (m : gmap string json) (key : string) : json :=
  default JNull (m !! key).

Definition NavidromeCache_set (m : gmap string json) (key : string) (data : json)
  : gmap string json :=
  <[key := data]> m.

Definition NavidromeCache_clear (m : gmap string json) : gmap string json := ∅.

(** The state the client works on: the module-level [_global_cache]
    ([None] until the first caching client is built) and the requests handed
    to [urlopen] so far, oldest first. *)
Record world : Type := {
  _global_cache : option (gmap string json);
  sent : list request
}.

Definition _get_global_cache (enable_cache : bool) (w : world) : world :=
  if negb enable_cache then w
  else match _global_cache w with
       | None => {| _global_cache := Some ∅; sent := sent w |}
       | Some _ => w
       end.

Definition _clear_global_cache (w : world) : world :=
  match _global_cache w with
  | Some m => {| _global_cache := Some (NavidromeCache_clear m); sent := sent w |}
  | None => w
  end.

(** ** SubsonicClient *)

(** The [cache] attribute is [_get_global_cache(enable_cache)]: [None] when
    [enable_cache] is false, and otherwise the one module-level object, whose
    contents are read from the [world]. *)
Record SubsonicClient : Type := {
  base_url : string;
  username : string;
  password : string;
  api_version : string;
  app_name : string;
  verify_ssl : bool;
  timeout_seconds : Z;
  enable_cache : bool
}.

(** [s[:-1]]. *)
Fixpoint drop_last (s : string) : string :=
  match s with
  | EmptyString => EmptyString
  | String c EmptyString => EmptyString
  | String c s' => String c (drop_last s')
  end.

Fixpoint ends_with_slash (s : string) : bool :=
  match s with
  | EmptyString => false
  | String c EmptyString => Ascii.eqb c "/"%char
  | String _ s' => ends_with_slash s'
  end.

Definition SubsonicClient_init (url user pass : string) (api app : string)
    (verify : bool) (timeout : Z) (enable : bool) (w : world)
  : SubsonicClient * world :=
  ({| base_url := if ends_with_slash url then drop_last url else url;
      username := user; password := pass;
      api_version := api; app_name := app;
      verify_ssl := verify; timeout_seconds := timeout;
      enable_cache := enable |},
   _get_global_cache enable w).

(** The store behind [self.cache] of a caching client. *)
Definition cache_of (w : world) : gmap string json :=
  default ∅ (_global_cache w).

Definition cache_store (key : string) (data : json) (w : world) : world :=
  {| _global_cache := Some (NavidromeCache_set (cache_of w) key data);
     sent := sent w |}.

Definition clear_cache (c : SubsonicClient) (w : world) : world :=
  _clear_global_cache w.

Definition get_cache_stats (c : SubsonicClient) (w : world) : list (string * Z) :=
  if negb (enable_cache c) then [("enabled", 0); ("entries", 0)]
  else [("enabled", 1); ("entries", Z.of_nat (size (cache_of w)))].

(** ** HTTP helpers *)

Definition _auth_params (c : SubsonicClient) (k : nat) : list (string * string) :=
  let salt := random_choices k in
  let token := md5_hexdigest (password c +:+ salt) in
  [("u", username c); ("t", token); ("s", salt);
   ("v", api_version c); ("c", app_name c); ("f", "json")].

(** The [Request] built for one call, with the endpoint as it appears in
    the error messages. *)
Definition normal_endpoint (endpoint : string) : string :=
  if String.prefix "/" endpoint then endpoint else "/" +:+ endpoint.

Definition build_request (c : SubsonicClient) (k : nat) (endpoint : string)
    (params : list (string * string)) (method : http_method)
    (song_ids : list string) : request :=
  let endpoint := normal_endpoint endpoint in
  let all_params := dict_merge (_auth_params c k) params in
  let url := base_url c +:+ endpoint in
  match method with
  | GET =>
      {| req_method := GET;
         req_url := url +:+ "?" +:+ urlencode all_params;
         req_data := None;
         req_verify := verify_ssl c; req_timeout := timeout_seconds c |}
  | POST =>
      let body :=
        match song_ids with
        | _ :: _ =>
            let param_pairs := all_params in
            urlencode (param_pairs ++ map (fun sid => ("songId", sid)) song_ids)
        | [] => urlencode all_params
        end in
      {| req_method := POST;
         req_url := url;
         req_data := Some body;
         req_verify := verify_ssl c; req_timeout := timeout_seconds c |}
  end.

(** [status == "ok"]. *)
Definition is_ok (status : json) : bool :=
  match status with
  | JStr s => String.eqb s "ok"
  | _ => false
  end.

(** The checks on the decoded payload. *)
Definition check_envelope (payload : json) : result json :=
  match py_in "subsonic-response" payload with
  | Raise e => Raise e
  | Ok false => Raise (ValueError "Unexpected response: missing 'subsonic-response'")
  | Ok true =>
      match py_getitem payload "subsonic-response" with
      | Raise e => Raise e
      | Ok resp =>
          match py_get resp "status" JNull with
          | Raise e => Raise e
          | Ok status =>
              if is_ok status then Ok resp else
              match py_get resp "error" (JObj []) with
              | Raise e => Raise e
              | Ok error =>
                  match py_get error "code" JNull with
                  | Raise e => Raise e
                  | Ok code =>
                      match py_get error "message" JNull with
                      | Raise e => Raise e
                      | Ok msg =>
                          Raise (ValueError ("Subsonic error " +:+ py_str code
                                             +:+ ": " +:+ py_str msg))
                      end
                  end
              end
          end
      end
  end.

Definition _request (c : SubsonicClient) (endpoint : string)
    (params : list (string * string)) (method : http_method)
    (song_ids : list string) (w : world) : result json * world :=
  let req := build_request c (length (sent w)) endpoint params method song_ids in
  let endpoint := normal_endpoint endpoint in
  let w' := {| _global_cache := _global_cache w; sent := sent w ++ [req] |} in
  match urlopen (sent w) req with
  | inl exc =>
      (Raise (ValueError ("HTTP error calling " +:+ endpoint +:+ ": " +:+ exc)), w')
  | inr data =>
      match json_loads data with
      | inl exc =>
          (Raise (ValueError ("Invalid JSON from " +:+ endpoint +:+ ": " +:+ exc)), w')
      | inr payload => (check_envelope payload, w')
      end
  end.

Definition _get (c : SubsonicClient) (endpoint : string)
    (params : list (string * string)) : world -> result json * world :=
  _request c endpoint params GET [].

Definition _post (c : SubsonicClient) (endpoint : string)
    (params : list (string * string)) (song_ids : list string)
  : world -> result json * world :=
  _request c endpoint params POST song_ids.

(** ** Calls that thread the world and may raise *)

Definition M (A : Type) : Type := world -> result A * world.

Definition ret {A : Type} (a : A) : M A := fun w => (Ok a, w).

Definition lift {A : Type} (r : result A) : M A := fun w => (r, w).

Definition bind {A B : Type} (m : M A) (k : A -> M B) : M B :=
  fun w =>
    match m w with
    | (Ok a, w') => k a w'
    | (Raise e, w') => (Raise e, w')
    end.

Notation "x <- m ;; k" := (bind m (fun x => k))
  (at level 100, m at next level, right associativity).

(** ** API calls *)

Definition ping (c : SubsonicClient) : M bool :=
  resp <- _get c "/rest/ping.view" [] ;;
  status <- lift (py_get resp "status" JNull) ;;
  ret (is_ok status).

Definition get_playlists (c : SubsonicClient) : M json :=
  resp <- _get c "/rest/getPlaylists.view" [] ;;
  inner <- lift (py_get resp "playlists" (JObj [])) ;;
  playlists <- lift (py_get inner "playlist" (JArr [])) ;;
  ret (if is_dict playlists then JArr [playlists] else playlists).

Definition get_playlist_tracks (c : SubsonicClient) (playlist_id : string) : M json :=
  resp <- _get c "/rest/getPlaylist.view" [("id", playlist_id)] ;;
  inner <- lift (py_get resp "playlist" (JObj [])) ;;
  entries <- lift (py_get inner "entry" (JArr [])) ;;
  ret (if is_dict entries then JArr [entries] else entries).

(** [pl_id or None]: [None] stands for Python's [None]. *)
Definition create_playlist (c : SubsonicClient) (name : string)
    (song_ids : list string) : M (option string) :=
  let params := [("name", name)] in
  resp <- _post c "/rest/createPlaylist.view" params song_ids ;;
  pl <- lift (py_get resp "playlist" (JObj [])) ;;
  pl_id <- (if is_dict pl
            then id <- lift (py_get pl "id" (JStr "")) ;; ret (py_str id)
            else ret "") ;;
  ret (if String.eqb pl_id "" then None else Some pl_id).

Definition update_playlist (c : SubsonicClient) (playlist_id : string)
    (name : option string) (public : option bool) : M unit :=
  let params := [("playlistId", playlist_id)] in
  let params := match name with
                | Some n => dict_set "name" n params
                | None => params
                end in
  let params := match public with
                | Some b => dict_set "public" (if b then "true" else "false") params
                | None => params
                end in
  _ <- _post c "/rest/updatePlaylist.view" params [] ;;
  ret tt.

Definition delete_playlist (c : SubsonicClient) (playlist_id : string) : M unit :=
  _ <- _post c "/rest/deletePlaylist.view" [("id", playlist_id)] [] ;;
  ret tt.

Definition search_songs (c : SubsonicClient) (query : string) (count offset : Z)
  : M json :=
  let params := [("query", query); ("songCount", py_str_int count);
                 ("songOffset", py_str_int offset)] in
  resp <- _get c "/rest/search3.view" params ;;
  inner <- lift (py_get resp "searchResult3" (JObj [])) ;;
  songs <- lift (py_get inner "song" (JArr [])) ;;
  ret (if is_dict songs then JArr [songs] else songs).

Definition album_list2_key (c : SubsonicClient) (list_type : string)
    (size offset : Z) : string :=
  base_url c +:+ "_album_list2_" +:+ list_type +:+ "_" +:+ py_str_int size
             +:+ "_" +:+ py_str_int offset.

Definition album_key (c : SubsonicClient) (album_id : string) : string :=
  base_url c +:+ "_album_" +:+ album_id.

(** [self.cache.get(key)] when [self.cache] is set, and a value that is not
    [None] came back. *)
Definition cache_hit (c : SubsonicClient) (key : string) (w : world) : option json :=
  if enable_cache c then
    let cached := NavidromeCache_get (cache_of w) key in
    if is_not_None cached then Some cached else None
  else None.

(** [if self.cache: self.cache.set(key, data)]. *)
Definition cache_result (c : SubsonicClient) (key : string) (data : json) : M unit :=
  fun w => (Ok tt, if enable_cache c then cache_store key data w else w).

Definition get_album_list2 (c : SubsonicClient) (list_type : string)
    (size offset : Z) : M json :=
  fun w =>
    let cache_key := album_list2_key c list_type size offset in
    match cache_hit c cache_key w with
    | Some cached_albums => (Ok cached_albums, w)
    | None =>
        (let params := [("type", list_type); ("size", py_str_int size);
                        ("offset", py_str_int offset)] in
         resp <- _get c "/rest/getAlbumList2.view" params ;;
         inner <- lift (py_get resp "albumList2" (JObj [])) ;;
         albums <- lift (py_get inner "album" (JArr [])) ;;
         let albums := if is_dict albums then JArr [albums] else albums in
         _ <- cache_result c cache_key albums ;;
         ret albums) w
    end.

Definition get_album (c : SubsonicClient) (album_id : string) : M json :=
  fun w =>
    let cache_key := album_key c album_id in
    match cache_hit c cache_key w with
    | Some cached_songs => (Ok cached_songs, w)
    | None =>
        (resp <- _get c "/rest/getAlbum.view" [("id", album_id)] ;;
         inner <- lift (py_get resp "album" (JObj [])) ;;
         songs <- lift (py_get inner "song" (JArr [])) ;;
         let songs := if is_dict songs then JArr [songs] else songs in
         _ <- cache_result c cache_key songs ;;
         ret songs) w
    end.

(** What [get_album_list2] and [get_album] both do after a miss, written
    once: one request, two nested fields read from the answer, a bare object
    wrapped in a list, the result stored when the client caches. *)
Definition fetch (c : SubsonicClient) (key endpoint : string)
    (params : list (string * string)) (outer inner : string) : M json :=
  resp <- _get c endpoint params ;;
  x <- lift (py_get resp outer (JObj [])) ;;
  y <- lift (py_get x inner (JArr [])) ;;
  let y := if is_dict y then JArr [y] else y in
  _ <- cache_result c key y ;;
  ret y.

(** ** The streaming traversal

    A run of the generator, consumed to its end, is described by what the
    consumer and the callbacks observe, in order: each call of [cancel_flag]
    with its answer, each call of [progress_cb], each song yielded. The
    cancellation predicate is read from outside the generator, so its answer
    is a function of what has been observed so far. *)

Inductive event : Type :=
| Poll (answer : bool)
| Progress (fetched total : Z)
| Yield (song : json).

(** How the generator ends: by [return] or by falling off its end, or with
    an exception that reaches the consumer. *)
Inductive outcome : Type :=
| Returned
| Raised (e : exn).

Section Stream.
Variable c : SubsonicClient.
Variable page_size : Z.
Variable progress_cb : bool.
Variable cancel_flag : option (list event -> bool).

(** [cancel_flag and cancel_flag()]: the calls made and the truth of the test. *)
Definition poll (hist : list event) : list event * bool :=
  match cancel_flag with
  | None => ([], false)
  | Some f => ([Poll (f hist)], f hist)
  end.

(** [if progress_cb: try: progress_cb(fetched, total_songs) except: pass]. *)
Definition report (fetched total_songs : Z) : list event :=
  if progress_cb then [Progress fetched total_songs] else [].

(** The inner loop of the first pass; [int(sc)] that raises adds nothing. *)
Fixpoint page_song_count (albums : list json) (count : Z) : result Z :=
  match albums with
  | [] => Ok count
  | album :: rest =>
      match py_get album "songCount" (JNum 0) with
      | Raise e => Raise e
      | Ok sc =>
          page_song_count rest
            (match py_int sc with Some n => count + n | None => count end)
      end
  end.

Inductive pass1 : Type :=
| Counted (total_songs : Z) (all_albums : list json)
| Stopped
| Failed (e : exn).

(** The [while pages < max_pages] loop; [remaining] is [max_pages - pages]. *)
Fixpoint first_pass (remaining : nat) (offset total_songs : Z)
    (all_albums : list json) (hist : list event) (w : world)
  : list event * pass1 * world :=
  match remaining with
  | O => ([], Counted total_songs all_albums, w)
  | S remaining' =>
      let (polled, stop) := poll hist in
      if stop then (polled, Stopped, w) else
      match get_album_list2 c "alphabeticalByName" page_size offset w with
      | (Raise e, w') => (polled, Failed e, w')
      | (Ok albums, w') =>
          if negb (py_truthy albums)
          then (polled, Counted total_songs all_albums, w')
          else
            match py_iter albums with
            | Raise e => (polled, Failed e, w')
            | Ok items =>
                match page_song_count items 0 with
                | Raise e => (polled, Failed e, w')
                | Ok count =>
                    let total_songs := total_songs + count in
                    let all_albums := all_albums ++ items in
                    match py_len albums with
                    | Raise e => (polled, Failed e, w')
                    | Ok len =>
                        if (len <? page_size)%Z
                        then (polled, Counted total_songs all_albums, w')
                        else
                          let '(evs, r, w'') :=
                            first_pass remaining' (offset + page_size)
                              total_songs all_albums (hist ++ polled) w' in
                          (polled ++ evs, r, w'')
                    end
                end
            end
      end
  end.

(** [for s in songs]: the events, and the new [fetched] unless the
    generator returned. *)
Fixpoint song_loop (total_songs : Z) (songs : list json) (fetched : Z)
    (hist : list event) : list event * option Z :=
  match songs with
  | [] => ([], Some fetched)
  | s :: rest =>
      let (polled, stop) := poll hist in
      if stop then (polled, None) else
      let fetched := fetched + 1 in
      let evs := polled ++ report fetched total_songs ++ [Yield s] in
      let (evs', r) := song_loop total_songs rest fetched (hist ++ evs) in
      (evs ++ evs', r)
  end.

(** [for album in all_albums] followed by the final progress update. *)
Fixpoint second_pass (total_songs : Z) (all_albums : list json) (fetched : Z)
    (hist : list event) (w : world) : list event * outcome * world :=
  match all_albums with
  | [] => (report fetched total_songs, Returned, w)
  | album :: rest =>
      let (polled, stop) := poll hist in
      if stop then (polled, Returned, w) else
      match py_get album "id" (JStr "") with
      | Raise e => (polled, Raised e, w)
      | Ok id =>
          let album_id := py_str id in
          if String.eqb album_id "" then
            let '(evs, out, w') :=
              second_pass total_songs rest fetched (hist ++ polled) w in
            (polled ++ evs, out, w')
          else
            let (r, w1) := get_album c album_id w in
            let songs := match r with Ok songs => songs | Raise _ => JArr [] end in
            match py_iter songs with
            | Raise e => (polled, Raised e, w1)
            | Ok items =>
                match song_loop total_songs items fetched (hist ++ polled) with
                | (evs, None) => (polled ++ evs, Returned, w1)
                | (evs, Some fetched') =>
                    let '(evs', out, w2) :=
                      second_pass total_songs rest fetched'
                        (hist ++ polled ++ evs) w1 in
                    (polled ++ evs ++ evs', out, w2)
                end
            end
      end
  end.

Definition iter_all_songs_stream (max_pages : Z) (w : world)
  : list event * outcome * world :=
  match first_pass (Z.to_nat max_pages) 0 0 [] [] w with
  | (evs, Stopped, w') => (evs, Returned, w')
  | (evs, Failed e, w') => (evs, Raised e, w')
  | (evs, Counted total_songs all_albums, w') =>
      let evs0 := evs ++ report 0 total_songs in
      let '(evs', out, w'') := second_pass total_songs all_albums 0 evs0 w' in
      (evs0 ++ evs', out, w'')
  end.

End Stream.

(** The songs a run yields, in order. *)
Definition yields (evs : list event) : list json :=
  omap (fun e => match e with Yield s => Some s | _ => None end) evs.

(** ** The collecting traversal ([iter_all_songs]) *)

(** [collected.extend(songs)] inside [try ... except Exception: continue]:
    a value that cannot be iterated leaves [collected] as it was. *)
Definition extend_or_skip (collected : list json) (r : result json) : list json :=
  match r with
  | Ok songs =>
      match py_iter songs with
      | Ok items => collected ++ items
      | Raise _ => collected
      end
  | Raise _ => collected
  end.

(** [for album in albums] of [iter_all_songs]; reading the id is outside
    the [try]. *)
Fixpoint collect_albums (c : SubsonicClient) (albums : list json)
    (collected : list json) (w : world) : result (list json) * world :=
  match albums with
  | [] => (Ok collected, w)
  | album :: rest =>
      match py_get album "id" (JStr "") with
      | Raise e => (Raise e, w)
      | Ok id =>
          let album_id := py_str id in
          if String.eqb album_id "" then collect_albums c rest collected w
          else
            let (r, w1) := get_album c album_id w in
            collect_albums c rest (extend_or_skip collected r) w1
      end
  end.

(** The [while pages < max_pages] loop of [iter_all_songs]; [remaining] is
    [max_pages - pages]. *)
Fixpoint collect_pages (c : SubsonicClient) (page_size : Z) (remaining : nat)
    (offset : Z) (collected : list json) (w : world)
  : result (list json) * world :=
  match remaining with
  | O => (Ok collected, w)
  | S remaining' =>
      match get_album_list2 c "alphabeticalByName" page_size offset w with
      | (Raise e, w') => (Raise e, w')
      | (Ok albums, w') =>
          if negb (py_truthy albums) then (Ok collected, w')
          else
            match py_iter albums with
            | Raise e => (Raise e, w')
            | Ok items =>
                match collect_albums c items collected w' with
                | (Raise e, w'') => (Raise e, w'')
                | (Ok collected, w'') =>
                    match py_len albums with
                    | Raise e => (Raise e, w'')
                    | Ok len =>
                        if (len <? page_size)%Z then (Ok collected, w'')
                        else collect_pages c page_size remaining'
                               (offset + page_size) collected w''
                    end
                end
            end
      end
  end.

Definition iter_all_songs (c : SubsonicClient) (page_size max_pages : Z)
  : M (list json) :=
  collect_pages c page_size (Z.to_nat max_pages) 0 [].

End Client.

Notation "x <- m ;; k" := (bind m (fun x => k))
  (at level 100, m at next level, right associativity).

(** ** Scripted servers, for running the client on concrete exchanges *)

Module Fixture.

(** A successful envelope around [fields]. *)
Definition envelope (fields : list (string * json)) : json :=
  JObj [("subsonic-response", JObj (("status", JStr "ok") :: fields))].

(** The body sent for the first needle found in the URL. *)
Fixpoint route (table : list (string * string)) (url : string) : string + string :=
  match table with
  | [] => inl "connection refused"
  | (needle, body) :: table' =>
      if contains needle url then inr body else route table' url
  end.

Definition decode (bodies : list (string * json)) (body : string) : string + json :=
  match assoc body bodies with
  | Some payload => inr payload
  | None => inl "Expecting value"
  end.

(** A server that answers by URL, with a fixed salt.  The digest and the
    [repr] and [int] of strings are stand-ins: no exchange below reads a
    count from a string or prints a container, and no answer depends on the
    token. *)
Definition scripted (table : list (string * string))
    (bodies : list (string * json)) : PyEnv :=
  {| md5_hexdigest := fun _ => "5f4dcc3b5aa765d61d8327deb882cf99";
     random_choices := fun _ => "abcdefghijkl";
     repr_str := fun s => "'" +:+ s +:+ "'";
     int_of_str := fun _ => None;
     urlopen := fun _ req => route table (req_url req);
     json_loads := decode bodies |}.

Definition client (enable : bool) : SubsonicClient :=
  {| base_url := "https://nav.example.com";
     username := "picard"; password := "secret";
     api_version := "1.16.1"; app_name := "PicardNavidrome";
     verify_ssl := true; timeout_seconds := 15;
     enable_cache := enable |}.

Definition fresh : world := {| _global_cache := None; sent := [] |}.

Definition album (id : string) (song_count : Z) : json :=
  JObj [("id", JStr id); ("songCount", JNum song_count)].

Definition song (id : string) : json := JObj [("id", JStr id)].

(** The album list holds JSON [null] in place of the albums. *)
Definition null_albums : PyEnv :=
  scripted [("getAlbumList2", "list")]
           [("list", envelope [("albumList2", JObj [("album", JNull)])])].

(** One album that reports no songs and holds one. *)
Definition undercounted : PyEnv :=
  scripted [("getAlbumList2", "list"); ("getAlbum.view", "a1")]
           [("list", envelope [("albumList2", JObj [("album", JArr [album "a1" 0])])]);
            ("a1", envelope [("album", JObj [("song", JArr [song "s1"])])])].

(** A body that is a JSON object without the envelope key. *)
Definition no_envelope : PyEnv :=
  scripted [("/rest/", "empty")] [("empty", JObj [])].

(** A library of four albums on one page; the songs of the third cannot
    be fetched. *)
Definition four_albums : list json :=
  [album "a1" 1; album "a2" 2; album "a3" 1; album "a4" 1].

Definition library : PyEnv :=
  scripted [("getAlbumList2", "list"); ("id=a1", "a1"); ("id=a2", "a2");
            ("id=a4", "a4")]
           [("list", envelope [("albumList2", JObj [("album", JArr four_albums)])]);
            ("a1", envelope [("album", JObj [("song", JArr [song "s1"])])]);
            ("a2", envelope [("album", JObj [("song", JArr [song "s2"; song "s3"])])]);
            ("a4", envelope [("album", JObj [("song", song "s4")])])].

(** Four albums reporting 3, 5, 0 and 2 songs, served two to a page. *)
Definition counted_albums : list json :=
  [album "a1" 3; album "a2" 5; album "a3" 0; album "a4" 2].

Definition paged : PyEnv :=
  scripted [("offset=0", "p0"); ("offset=2", "p1"); ("offset=4", "p2")]
           [("p0", envelope [("albumList2",
                              JObj [("album", JArr [album "a1" 3; album "a2" 5])])]);
            ("p1", envelope [("albumList2",
                              JObj [("album", JArr [album "a3" 0; album "a4" 2])])]);
            ("p2", envelope [("albumList2", JObj [])])].

(** No server answers, and one that answers with text that is not JSON. *)
Definition unreachable : PyEnv := scripted [] [].

Definition garbled : PyEnv := scripted [("/rest/", "<html>")] [].

(** Answers that hold nothing but the status, and answers whose
    [playlists] member is JSON [null]. *)
Definition bare : PyEnv :=
  scripted [("/rest/", "bare")] [("bare", envelope [])].

Definition null_outer : PyEnv :=
  scripted [("/rest/", "nulls")] [("nulls", envelope [("playlists", JNull)])].

(** One album whose [song] member is the number 5. *)
Definition odd_songs : PyEnv :=
  scripted [("getAlbumList2", "list"); ("id=a1", "a1")]
           [("list", envelope [("albumList2", JObj [("album", JArr [album "a1" 1])])]);
            ("a1", envelope [("album", JObj [("song", JNum 5)])])].

(** The server refuses the credentials. *)
Definition denied : PyEnv :=
  scripted [("/rest/", "denied")]
           [("denied",
             JObj [("subsonic-response",
                    JObj [("status", JStr "failed");
                          ("error", JObj [("code", JNum 40);
                                          ("message",
                                           JStr "Wrong username or password")])])])].

(** The answer to [createPlaylist] names the new playlist. *)
Definition created_answer : json :=
  JObj [("status", JStr "ok"); ("playlist", JObj [("id", JStr "pl-77")])].

Definition created : PyEnv :=
  scripted [("createPlaylist", "created")]
           [("created", JObj [("subsonic-response", created_answer)])].

(** Every list-shaped field holds the single object [song "s1"]. *)
Definition singles : json :=
  JObj [("status", JStr "ok");
        ("album", JObj [("song", song "s1")]);
        ("playlists", JObj [("playlist", song "s1")]);
        ("playlist", JObj [("entry", song "s1")]);
        ("searchResult3", JObj [("song", song "s1")]);
        ("albumList2", JObj [("album", song "s1")])].

Definition single_objects : PyEnv :=
  scripted [("/rest/", "singles")] [("singles", JObj [("subsonic-response", singles)])].

End Fixture.

(** * Vocabulary of the properties *)

(** A list-shaped field of the answer: [resp[outer][inner]] is [v]. *)
Definition field_is (resp : json) (outer inner : string) (v : json) : Prop :=
  exists fields inner_fields,
    resp = JObj fields
    /\ assoc outer fields = Some (JObj inner_fields)
    /\ assoc inner inner_fields = Some v.

(** A single object becomes a one-element list; a list is kept as it is. *)
Definition as_sequence (v r : json) : Prop :=
  (forall o, v = JObj o -> r = JArr [JObj o])
  /\ (forall l, v = JArr l -> r = JArr l).

(** Events that are all calls of the cancellation predicate. *)
Definition only_polls (evs : list event) : Prop :=
  forall e, In e evs -> exists b, e = Poll b.




(** An operation fails as its request does: same exception, same world. *)
Definition propagates_at {A : Type} (w : world) (request : M json) (op : M A) : Prop :=
  forall e w1, request w = (Raise e, w1) -> op w = (Raise e, w1).

Definition propagates {A : Type} (request : M json) (op : M A) : Prop :=
  forall w, propagates_at w request op.

(** The albums a server holding [catalog] lists for one page. *)
Definition page_of (catalog : list json) (size offset : Z) : list json :=
  firstn (Z.to_nat size) (skipn (Z.to_nat offset) catalog).

(** [resp.get(outer, {}).get(inner, [])]. *)
Definition list_field (resp : json) (outer inner : string) : result json :=
  match py_get resp outer (JObj []) with
  | Ok x => py_get x inner (JArr [])
  | Raise e => Raise e
  end.

(** The server answers every page request of the traversal, whenever it
    is made, with the albums of [catalog] at that offset. *)
Definition serves_catalog `{PyEnv} (c : SubsonicClient) (page_size : Z)
    (catalog : list json) : Prop :=
  forall (i : nat) (w : world),
    (i * Z.to_nat page_size <= length catalog)%nat ->
    exists resp w',
      _get c "/rest/getAlbumList2.view"
        [("type", "alphabeticalByName"); ("size", py_str_int page_size);
         ("offset", py_str_int (Z.of_nat i * page_size))] w = (Ok resp, w')
      /\ list_field resp "albumList2" "album"
         = Ok (JArr (page_of catalog page_size (Z.of_nat i * page_size))).

(** What one album adds to the total: [int(album.get("songCount", 0))],
    nothing when that raises. *)
Definition song_count `{PyEnv} (album : json) : Z :=
  match py_get album "songCount" (JNum 0) with
  | Ok sc => default 0 (py_int sc)
  | Raise _ => 0
  end.

Definition reported_total `{PyEnv} (catalog : list json) : Z :=
  fold_right (fun album sum => song_count album + sum) 0 catalog.

(** The five operations that return a list: each, run in [w], makes one
    request and reads the list at [outer].[inner] of the answer (the two
    cached ones when the lookup misses). *)
Inductive reads `{PyEnv} (c : SubsonicClient) (w : world)
  : M json -> M json -> string -> string -> Prop :=
| reads_playlists :
    reads c w (get_playlists c) (_get c "/rest/getPlaylists.view" [])
      "playlists" "playlist"
| reads_playlist_tracks playlist_id :
    reads c w (get_playlist_tracks c playlist_id)
      (_get c "/rest/getPlaylist.view" [("id", playlist_id)]) "playlist" "entry"
| reads_search_songs query count offset :
    reads c w (search_songs c query count offset)
      (_get c "/rest/search3.view"
         [("query", query); ("songCount", py_str_int count);
          ("songOffset", py_str_int offset)])
      "searchResult3" "song"
| reads_album_list2 list_type size offset :
    cache_hit c (album_list2_key c list_type size offset) w = None ->
    reads c w (get_album_list2 c list_type size offset)
      (_get c "/rest/getAlbumList2.view"
         [("type", list_type); ("size", py_str_int size);
          ("offset", py_str_int offset)])
      "albumList2" "album"
| reads_album album_id :
    cache_hit c (album_key c album_id) w = None ->
    reads c w (get_album c album_id)
      (_get c "/rest/getAlbum.view" [("id", album_id)]) "album" "song".

(** Events in which the progress reports count the songs: from a count
    of [fetched] songs so far, a report carries the current count, and each
    yielded song comes right after the report of the count it raises; every
    report carries [total]. *)
Inductive numbered (total : Z) : Z -> list event -> Prop :=
| numbered_nil fetched : numbered total fetched []
| numbered_poll fetched answer evs :
    numbered total fetched evs -> numbered total fetched (Poll answer :: evs)
| numbered_report fetched evs :
    numbered total fetched evs ->
    numbered total fetched (Progress fetched total :: evs)
| numbered_song fetched song evs :
    numbered total (fetched + 1) evs ->
    numbered total fetched (Progress (fetched + 1) total :: Yield song :: evs).

(** The answer to a request depends on the request alone, not on what
    was sent before it nor on the salt drawn for it. *)
Definition steady `{PyEnv} (c : SubsonicClient) : Prop :=
  forall endpoint params w1 w2,
    fst (_get c endpoint params w1) = fst (_get c endpoint params w2).

(** The number of occurrences of a character in a string. *)
Fixpoint count_char (c : ascii) (s : string) : nat :=
  match s with
  | EmptyString => 0%nat
  | String a s' => ((if Ascii.eqb a c then 1 else 0) + count_char c s')%nat
  end.

(** * Properties *)

(** ** Calls and the world *)

Lemma bind_Ok {A B : Type} (m : M A) (k : A -> M B) (w w' : world) (b : B) :
  bind m k w = (Ok b, w') ->
  exists a w1, m w = (Ok a, w1) /\ k a w1 = (Ok b, w').
Proof.
  unfold bind. destruct (m w) as [[a|e] w1]; [eauto | discriminate].
Qed.

Lemma bind_Raise {A B : Type} (m : M A) (k : A -> M B) (w w1 : world) (e : exn) :
  m w = (Raise e, w1) -> bind m k w = (Raise e, w1).
Proof. unfold bind. intros ->. reflexivity. Qed.

Lemma bind_step {A B : Type} (m : M A) (k : A -> M B) (w w1 : world) (a : A) :
  m w = (Ok a, w1) -> bind m k w = k a w1.
Proof. unfold bind. intros ->. reflexivity. Qed.

Lemma lift_Ok {A : Type} (r : result A) (w w' : world) (a : A) :
  lift r w = (Ok a, w') -> r = Ok a /\ w' = w.
Proof. unfold lift. intros [= -> ->]. auto. Qed.

(** Every call of [_request] hands exactly one request to [urlopen] and
    leaves the cache alone. *)
Lemma _request_world `{PyEnv} c endpoint params method song_ids w :
  snd (_request c endpoint params method song_ids w)
  = {| _global_cache := _global_cache w;
       sent := sent w ++ [build_request c (length (sent w)) endpoint params
                            method song_ids] |}.
Proof.
  unfold _request.
  destruct (urlopen _ _) as [exc|data]; [reflexivity|].
  destruct (json_loads data); reflexivity.
Qed.

Lemma cache_hit_stored c key v w :
  enable_cache c = true -> v <> JNull ->
  cache_hit c key (cache_store key v w) = Some v.
Proof.
  intros Hc Hv. unfold cache_hit, cache_store, cache_of, NavidromeCache_get,
    NavidromeCache_set. rewrite Hc. simpl. rewrite lookup_insert_eq. simpl.
  destruct v; try reflexivity. contradiction.
Qed.


Lemma _get_world `{PyEnv} c endpoint params w r w' :
  _get c endpoint params w = (r, w') ->
  w' = {| _global_cache := _global_cache w;
          sent := sent w ++ [build_request c (length (sent w)) endpoint params GET []] |}.
Proof.
  unfold _get. intros E.
  pose proof (_request_world c endpoint params GET [] w) as Hw.
  rewrite E in Hw. exact Hw.
Qed.

Lemma get_album_list2_unfold `{PyEnv} c list_type size offset w :
  get_album_list2 c list_type size offset w
  = match cache_hit c (album_list2_key c list_type size offset) w with
    | Some cached => (Ok cached, w)
    | None =>
        fetch c (album_list2_key c list_type size offset) "/rest/getAlbumList2.view"
          [("type", list_type); ("size", py_str_int size);
           ("offset", py_str_int offset)] "albumList2" "album" w
    end.
Proof. reflexivity. Qed.

Lemma get_album_unfold `{PyEnv} c album_id w :
  get_album c album_id w
  = match cache_hit c (album_key c album_id) w with
    | Some cached => (Ok cached, w)
    | None =>
        fetch c (album_key c album_id) "/rest/getAlbum.view"
          [("id", album_id)] "album" "song" w
    end.
Proof. reflexivity. Qed.

Lemma fetch_sends_one `{PyEnv} c key endpoint params outer inner w :
  sent (snd (fetch c key endpoint params outer inner w))
  = sent w ++ [build_request c (length (sent w)) endpoint params GET []].
Proof.
  unfold fetch, bind. destruct (_get c endpoint params w) as [[resp|e] w'] eqn:E;
    apply _get_world in E; subst w'; [|reflexivity].
  unfold lift, cache_result, ret, cache_store.
  destruct (py_get resp outer _) as [x|e]; [|reflexivity].
  destruct (py_get x inner _) as [y|e]; [|reflexivity].
  simpl. destruct (enable_cache c); reflexivity.
Qed.

(** What a successful fetch returns, and where it leaves the world. *)
Lemma fetch_Ok `{PyEnv} c key endpoint params outer inner w v w1 :
  fetch c key endpoint params outer inner w = (Ok v, w1) ->
  exists resp w0 x y,
    _get c endpoint params w = (Ok resp, w0)
    /\ py_get resp outer (JObj []) = Ok x
    /\ py_get x inner (JArr []) = Ok y
    /\ v = (if is_dict y then JArr [y] else y)
    /\ w1 = (if enable_cache c then cache_store key v w0 else w0).
Proof.
  unfold fetch. intros Hb.
  apply bind_Ok in Hb as (resp & w0 & Hg & Hb).
  apply bind_Ok in Hb as (x & w2 & Hx & Hb). apply lift_Ok in Hx as [Hx ->].
  apply bind_Ok in Hb as (y & w2 & Hy & Hb). apply lift_Ok in Hy as [Hy ->].
  apply bind_Ok in Hb as ([] & w2 & Hs & Hr).
  unfold cache_result in Hs. injection Hs as <-.
  unfold ret in Hr. injection Hr as <- <-.
  exists resp, w0, x, y. auto.
Qed.

Lemma fetch_of_response `{PyEnv} c key endpoint params outer inner w resp w0 x y :
  _get c endpoint params w = (Ok resp, w0) ->
  py_get resp outer (JObj []) = Ok x ->
  py_get x inner (JArr []) = Ok y ->
  fetch c key endpoint params outer inner w
  = (Ok (if is_dict y then JArr [y] else y),
     if enable_cache c
     then cache_store key (if is_dict y then JArr [y] else y) w0 else w0).
Proof.
  intros Hg Hx Hy. unfold fetch.
  rewrite (bind_step _ _ _ _ _ Hg).
  unfold bind, lift, cache_result, ret. rewrite Hx, Hy. reflexivity.
Qed.

(** ** The response cache *)

(** C1 (amended): for two successive calls to [get_album_list2] on clients
    with caching enabled (which share the module-level cache), with the same
    base URL, list type, size and offset, if the first call returns a value
    other than [None], the second call sends no request (the world, and with
    it the list of requests sent, is unchanged) and returns that same value. *)
Theorem get_album_list2_second_call_cached `{PyEnv} c1 c2 list_type size offset w v w1 :
  enable_cache c1 = true -> enable_cache c2 = true ->
  base_url c1 = base_url c2 ->
  get_album_list2 c1 list_type size offset w = (Ok v, w1) ->
  v <> JNull ->
  get_album_list2 c2 list_type size offset w1 = (Ok v, w1).
Proof.
  intros E1 E2 Hurl Hfirst Hv.
  assert (Hkey : album_list2_key c2 list_type size offset
                 = album_list2_key c1 list_type size offset)
    by (unfold album_list2_key; rewrite Hurl; reflexivity).
  assert (Hhit : cache_hit c2 (album_list2_key c1 list_type size offset) w1 = Some v).
  { rewrite get_album_list2_unfold in Hfirst.
    destruct (cache_hit c1 _ w) as [cached|] eqn:Hc.
    - injection Hfirst as -> ->.
      unfold cache_hit in *. rewrite E1 in Hc. rewrite E2. exact Hc.
    - apply fetch_Ok in Hfirst as (resp & w0 & x & y & _ & _ & _ & _ & ->).
      rewrite E1. apply cache_hit_stored; assumption. }
  rewrite get_album_list2_unfold, Hkey, Hhit. reflexivity.
Qed.


(** C1, as stated, fails: when the server sends [null] for the album list,
    the first call returns [None] and stores it, the lookup of the second
    call reads [None] as a miss, and a second request is sent. *)
Lemma get_album_list2_null_refetched :
  let first := get_album_list2 (H := Fixture.null_albums) (Fixture.client true)
                 "alphabeticalByName" 500 0 Fixture.fresh in
  let second := get_album_list2 (H := Fixture.null_albums) (Fixture.client true)
                  "alphabeticalByName" 500 0 (snd first) in
  fst first = Ok JNull /\ length (sent (snd first)) = 1%nat
  /\ fst second = Ok JNull /\ length (sent (snd second)) = 2%nat.
Proof. vm_compute. repeat split. Qed.

Lemma get_album_list2_second_call_cached_witness :
  let c := Fixture.client true in
  let first := get_album_list2 (H := Fixture.undercounted) c
                 "alphabeticalByName" 2 0 Fixture.fresh in
  get_album_list2 (H := Fixture.undercounted) c "alphabeticalByName" 2 0 (snd first)
  = (Ok (JArr [Fixture.album "a1" 0]), snd first).
Proof.
  apply (get_album_list2_second_call_cached (H := Fixture.undercounted)
           (Fixture.client true) (Fixture.client true)
           "alphabeticalByName" 2 0 Fixture.fresh).
  - reflexivity.
  - reflexivity.
  - reflexivity.
  - vm_compute. reflexivity.
  - discriminate.
Defined.

(** ** Envelopes and normalised fields *)

Lemma check_envelope_Ok `{PyEnv} payload resp :
  check_envelope payload = Ok resp -> exists fields, resp = JObj fields.
Proof.
  unfold check_envelope. intros Hc.
  destruct (py_in _ payload) as [[|]|]; try discriminate.
  destruct (py_getitem payload _) as [r|]; try discriminate.
  destruct r as [| | | | |fields]; try discriminate. simpl in Hc.
  destruct (is_ok _).
  - injection Hc as <-. eauto.
  - destruct (default _ (assoc "error" fields)); try discriminate.
Qed.

Lemma _request_Ok `{PyEnv} c endpoint params method song_ids w resp w' :
  _request c endpoint params method song_ids w = (Ok resp, w') ->
  exists fields, resp = JObj fields.
Proof.
  unfold _request. destruct (urlopen _ _) as [exc|data]; [discriminate|].
  destruct (json_loads data) as [exc|payload]; [discriminate|].
  intros [= Hc _]. eapply check_envelope_Ok, Hc.
Qed.

Lemma wrap_as_sequence v : as_sequence v (if is_dict v then JArr [v] else v).
Proof. split; intros ? ->; reflexivity. Qed.

Lemma field_is_get resp outer inner v :
  field_is resp outer inner v ->
  exists x, py_get resp outer (JObj []) = Ok x /\ py_get x inner (JArr []) = Ok v.
Proof.
  intros (fields & inner_fields & -> & Ho & Hi).
  exists (JObj inner_fields). simpl. rewrite Ho, Hi. auto.
Qed.

(** C4: when the list-shaped field of the answer ([album.song] for
    [get_album], [playlists.playlist] for [get_playlists], [playlist.entry]
    for [get_playlist_tracks], [searchResult3.song] for [search_songs],
    [albumList2.album] for [get_album_list2]) is a single object, the
    operation returns the one-element list holding it, and when it is a list
    the operation returns that list. For the two cached operations the answer
    arrives when the cache lookup misses. *)
Theorem list_fields_normalised `{PyEnv} c w resp w0 v :
  (forall album_id,
      cache_hit c (album_key c album_id) w = None ->
      _get c "/rest/getAlbum.view" [("id", album_id)] w = (Ok resp, w0) ->
      field_is resp "album" "song" v ->
      exists r, fst (get_album c album_id w) = Ok r /\ as_sequence v r)
  /\ (_get c "/rest/getPlaylists.view" [] w = (Ok resp, w0) ->
      field_is resp "playlists" "playlist" v ->
      exists r, fst (get_playlists c w) = Ok r /\ as_sequence v r)
  /\ (forall playlist_id,
      _get c "/rest/getPlaylist.view" [("id", playlist_id)] w = (Ok resp, w0) ->
      field_is resp "playlist" "entry" v ->
      exists r, fst (get_playlist_tracks c playlist_id w) = Ok r /\ as_sequence v r)
  /\ (forall query count offset,
      _get c "/rest/search3.view"
        [("query", query); ("songCount", py_str_int count);
         ("songOffset", py_str_int offset)] w = (Ok resp, w0) ->
      field_is resp "searchResult3" "song" v ->
      exists r, fst (search_songs c query count offset w) = Ok r /\ as_sequence v r)
  /\ (forall list_type size offset,
      cache_hit c (album_list2_key c list_type size offset) w = None ->
      _get c "/rest/getAlbumList2.view"
        [("type", list_type); ("size", py_str_int size);
         ("offset", py_str_int offset)] w = (Ok resp, w0) ->
      field_is resp "albumList2" "album" v ->
      exists r, fst (get_album_list2 c list_type size offset w) = Ok r
                /\ as_sequence v r).
Proof.
  assert (Hplain : forall endpoint params outer inner,
    _get c endpoint params w = (Ok resp, w0) ->
    field_is resp outer inner v ->
    exists r,
      fst ((resp <- _get c endpoint params ;;
            x <- lift (py_get resp outer (JObj [])) ;;
            y <- lift (py_get x inner (JArr [])) ;;
            ret (if is_dict y then JArr [y] else y)) w) = Ok r
      /\ as_sequence v r).
  { intros endpoint params outer inner Hg Hf.
    apply field_is_get in Hf as (x & Hx & Hy).
    rewrite (bind_step _ _ _ _ _ Hg). unfold bind, lift, ret. rewrite Hx, Hy.
    eexists. split; [reflexivity | apply wrap_as_sequence]. }
  assert (Hcached : forall key endpoint params outer inner,
    _get c endpoint params w = (Ok resp, w0) ->
    field_is resp outer inner v ->
    exists r, fst (fetch c key endpoint params outer inner w) = Ok r
              /\ as_sequence v r).
  { intros key endpoint params outer inner Hg Hf.
    apply field_is_get in Hf as (x & Hx & Hy).
    rewrite (fetch_of_response _ _ _ _ _ _ _ _ _ _ _ Hg Hx Hy).
    eexists. split; [reflexivity | apply wrap_as_sequence]. }
  repeat split.
  - intros album_id Hmiss Hg Hf. rewrite get_album_unfold, Hmiss. eauto.
  - intros Hg Hf. apply (Hplain _ _ _ _ Hg Hf).
  - intros playlist_id Hg Hf. apply (Hplain _ _ _ _ Hg Hf).
  - intros query count offset Hg Hf. apply (Hplain _ _ _ _ Hg Hf).
  - intros list_type size offset Hmiss Hg Hf.
    rewrite get_album_list2_unfold, Hmiss. eauto.
Qed.

Lemma list_fields_normalised_witness :
  let c := Fixture.client false in
  let one := Ok (JArr [Fixture.song "s1"]) in
  fst (get_album (H := Fixture.single_objects) c "42" Fixture.fresh) = one
  /\ fst (get_playlists (H := Fixture.single_objects) c Fixture.fresh) = one
  /\ fst (get_playlist_tracks (H := Fixture.single_objects) c "7" Fixture.fresh) = one
  /\ fst (search_songs (H := Fixture.single_objects) c "abba" 10 0 Fixture.fresh) = one
  /\ fst (get_album_list2 (H := Fixture.single_objects) c "newest" 500 0 Fixture.fresh)
     = one.
Proof.
  assert (Hf : forall outer inner inner_fields,
             assoc outer [("status", JStr "ok");
                          ("album", JObj [("song", Fixture.song "s1")]);
                          ("playlists", JObj [("playlist", Fixture.song "s1")]);
                          ("playlist", JObj [("entry", Fixture.song "s1")]);
                          ("searchResult3", JObj [("song", Fixture.song "s1")]);
                          ("albumList2", JObj [("album", Fixture.song "s1")])]
             = Some (JObj inner_fields) ->
             assoc inner inner_fields = Some (Fixture.song "s1") ->
             field_is Fixture.singles outer inner (Fixture.song "s1")).
  { intros outer inner inner_fields Ho Hi. do 2 eexists.
    split; [reflexivity|]. split; [exact Ho | exact Hi]. }
  pose (thm := fun w0 =>
          list_fields_normalised (H := Fixture.single_objects)
            (Fixture.client false) Fixture.fresh Fixture.singles w0
            (Fixture.song "s1")).
  split; [|split; [|split; [|split]]].
  - destruct (thm (snd (_get (H := Fixture.single_objects) (Fixture.client false)
                          "/rest/getAlbum.view" [("id", "42")] Fixture.fresh)))
      as (Hthm & _).
    destruct (Hthm "42" eq_refl eq_refl (Hf "album" "song" _ eq_refl eq_refl))
      as (r & -> & Hr & _).
    f_equal. apply (Hr _ eq_refl).
  - destruct (thm (snd (_get (H := Fixture.single_objects) (Fixture.client false)
                          "/rest/getPlaylists.view" [] Fixture.fresh)))
      as (_ & Hthm & _).
    destruct (Hthm eq_refl (Hf "playlists" "playlist" _ eq_refl eq_refl)) as (r & -> & Hr & _).
    f_equal. apply (Hr _ eq_refl).
  - destruct (thm (snd (_get (H := Fixture.single_objects) (Fixture.client false)
                          "/rest/getPlaylist.view" [("id", "7")] Fixture.fresh)))
      as (_ & _ & Hthm & _).
    destruct (Hthm "7" eq_refl (Hf "playlist" "entry" _ eq_refl eq_refl)) as (r & -> & Hr & _).
    f_equal. apply (Hr _ eq_refl).
  - destruct (thm (snd (_get (H := Fixture.single_objects) (Fixture.client false)
                          "/rest/search3.view"
                          [("query", "abba"); ("songCount", "10"); ("songOffset", "0")]
                          Fixture.fresh)))
      as (_ & _ & _ & Hthm & _).
    destruct (Hthm "abba" 10 0 eq_refl (Hf "searchResult3" "song" _ eq_refl eq_refl))
      as (r & -> & Hr & _).
    f_equal. apply (Hr _ eq_refl).
  - destruct (thm (snd (_get (H := Fixture.single_objects) (Fixture.client false)
                          "/rest/getAlbumList2.view"
                          [("type", "newest"); ("size", "500"); ("offset", "0")]
                          Fixture.fresh)))
      as (_ & _ & _ & _ & Hthm).
    destruct (Hthm "newest" 500 0 eq_refl eq_refl (Hf "albumList2" "album" _ eq_refl eq_refl))
      as (r & -> & Hr & _).
    f_equal. apply (Hr _ eq_refl).
Defined.

(** ** Text of values *)

Lemma py_str_int_nonempty z : py_str_int z <> "".
Proof.
  unfold py_str_int, NilZero.string_of_int, NilZero.string_of_uint.
  destruct z as [|p|p]; simpl; try discriminate.
  all: pose proof (DecimalPos.Unsigned.to_uint_nonnil p) as Hp;
    destruct (Pos.to_uint p); simpl; try discriminate; contradiction.
Qed.

(** [str(x)] is empty for the empty string only. *)
Lemma py_str_empty `{PyEnv} x : py_str x = "" <-> x = JStr "".
Proof.
  split; [|intros ->; reflexivity].
  destruct x as [|[|]|z|s| |]; simpl; try discriminate.
  - intros Hz. destruct (py_str_int_nonempty _ Hz).
  - intros ->. reflexivity.
Qed.

(** ** Playlists *)

(** C10: after a successful request, [create_playlist] returns [None]
    exactly when the [playlist] field of the answer is missing, is not an
    object, or holds an object whose [id] is missing or is the empty string;
    in every other case it returns [str] of that id, which is not empty. *)
Theorem create_playlist_id `{PyEnv} c name song_ids w resp w' :
  _post c "/rest/createPlaylist.view" [("name", name)] song_ids w = (Ok resp, w') ->
  exists fields r,
    resp = JObj fields
    /\ create_playlist c name song_ids w = (Ok r, w')
    /\ (r = None <->
        assoc "playlist" fields = None
        \/ (exists pl, assoc "playlist" fields = Some pl /\ is_dict pl = false)
        \/ (exists pl_fields,
               assoc "playlist" fields = Some (JObj pl_fields)
               /\ (assoc "id" pl_fields = None
                   \/ assoc "id" pl_fields = Some (JStr ""))))
    /\ (forall s, r = Some s ->
        s <> ""
        /\ exists pl_fields id,
             assoc "playlist" fields = Some (JObj pl_fields)
             /\ assoc "id" pl_fields = Some id /\ s = py_str id).
Proof.
  intros Hp. destruct (_request_Ok _ _ _ _ _ _ _ _ Hp) as [fields ->].
  exists fields. unfold create_playlist. rewrite (bind_step _ _ _ _ _ Hp).
  unfold bind at 1. unfold lift at 1. simpl py_get.
  destruct (assoc "playlist" fields) as [pl|] eqn:Hpl; simpl default.
  - destruct pl as [|b0|z0|s0|l0|pl_fields]; simpl is_dict.
    1-5: (eexists; split; [reflexivity|]; split; [reflexivity|]; split;
          [split; [intros _; right; left; eexists; split; reflexivity
                  | reflexivity]
          | intros s [=]]).
    unfold bind, lift, ret. simpl py_get.
    destruct (assoc "id" pl_fields) as [id|] eqn:Hid; simpl default.
    + destruct (String.eqb_spec (py_str id) "") as [He|Hne].
      * apply py_str_empty in He. subst id.
        eexists; split; [reflexivity|]; split; [reflexivity|]; split.
        -- split; [|reflexivity]. intros _. right. right.
           exists pl_fields. split; [reflexivity | right; exact Hid].
        -- intros s [=].
      * eexists; split; [reflexivity|]; split; [reflexivity|]; split.
        -- split; [discriminate|].
           intros [[=]|[(pl & [= <-] & [=])|(pf & [= <-] & [Hn|Hs])]].
           ++ rewrite Hid in Hn. discriminate.
           ++ rewrite Hid in Hs. injection Hs as ->. destruct Hne. reflexivity.
        -- intros s [= <-]. split; [exact Hne|]. exists pl_fields, id. auto.
    + eexists; split; [reflexivity|]; split; [reflexivity|]; split.
      * split; [|reflexivity]. intros _. right. right.
        exists pl_fields. split; [reflexivity | left; exact Hid].
      * intros s [=].
  - unfold bind, lift, ret. simpl.
    eexists; split; [reflexivity|]; split; [reflexivity|]; split.
    + split; [|reflexivity]. intros _. left. reflexivity.
    + intros s [=].
Qed.

Lemma create_playlist_id_witness :
  let c := Fixture.client true in
  let posted := _post (H := Fixture.created) c "/rest/createPlaylist.view"
                  [("name", "X")] ["a"; "b"; "c"] Fixture.fresh in
  posted = (Ok Fixture.created_answer, snd posted)
  /\ exists r,
       create_playlist (H := Fixture.created) c "X" ["a"; "b"; "c"] Fixture.fresh
       = (Ok r, snd posted)
       /\ forall s, r = Some s -> s <> "".
Proof.
  intros c posted.
  assert (Hp : posted = (Ok Fixture.created_answer, snd posted))
    by (vm_compute; reflexivity).
  split; [exact Hp|].
  destruct (create_playlist_id (H := Fixture.created) c "X" ["a"; "b"; "c"]
              Fixture.fresh Fixture.created_answer (snd posted) Hp)
    as (fields & r & _ & Hc & _ & Hs).
  exists r. split; [exact Hc|]. intros s Hr. apply (Hs s Hr).
Defined.

(** ** Requests and their errors *)

Lemma append_cons a (s t : string) : String a s +:+ t = String a (s +:+ t).
Proof. reflexivity. Qed.

Lemma append_assoc (s1 s2 s3 : string) : (s1 +:+ s2) +:+ s3 = s1 +:+ (s2 +:+ s3).
Proof.
  induction s1 as [|a s1 IH]; [reflexivity|].
  rewrite !append_cons, IH. reflexivity.
Qed.

Lemma concat_cons sep x (l : list string) :
  l <> [] -> String.concat sep (x :: l) = x +:+ sep +:+ String.concat sep l.
Proof. destruct l; [contradiction | reflexivity]. Qed.

Lemma concat_app sep (l1 l2 : list string) :
  l1 <> [] -> l2 <> [] ->
  String.concat sep (l1 ++ l2)
  = String.concat sep l1 +:+ sep +:+ String.concat sep l2.
Proof.
  intros H1 H2. induction l1 as [|x l1 IH]; [contradiction|].
  destruct l1 as [|y l1].
  - simpl app. rewrite concat_cons by assumption. reflexivity.
  - change ((x :: y :: l1) ++ l2) with (x :: ((y :: l1) ++ l2)).
    rewrite concat_cons by discriminate. rewrite IH by discriminate.
    rewrite (concat_cons sep x (y :: l1)) by discriminate.
    rewrite !append_assoc. reflexivity.
Qed.

Lemma dict_set_nonempty {A : Type} k (v : A) d : dict_set k v d <> [].
Proof. destruct d as [|[k' v'] d]; simpl; [|destruct (String.eqb k k')]; discriminate. Qed.

Lemma dict_merge_nonempty {A : Type} (d1 d2 : list (string * A)) :
  d1 <> [] -> dict_merge d1 d2 <> [].
Proof.
  unfold dict_merge. revert d1.
  induction d2 as [|kv d2 IH]; intros d1 Hd; simpl; [exact Hd|].
  apply IH, dict_set_nonempty.
Qed.

Lemma dict_set_fresh {A : Type} k (v : A) d :
  assoc k d = None -> dict_set k v d = d ++ [(k, v)].
Proof.
  induction d as [|[k' v'] d IH]; simpl; [reflexivity|].
  destruct (String.eqb k k'); [discriminate|].
  intros Hd. rewrite IH by assumption. reflexivity.
Qed.

Lemma assoc_app_fresh {A : Type} k k' (v : A) d :
  k <> k' -> assoc k d = None -> assoc k (d ++ [(k', v)]) = None.
Proof.
  intros Hne. induction d as [|[k0 v0] d IH]; simpl.
  - destruct (String.eqb_spec k k'); [contradiction | reflexivity].
  - destruct (String.eqb k k0); [discriminate | exact IH].
Qed.

(** Merging a dict whose keys are all new appends its items. *)
Lemma dict_merge_fresh {A : Type} (d1 d2 : list (string * A)) :
  NoDup (map fst d2) ->
  (forall k, In k (map fst d2) -> assoc k d1 = None) ->
  dict_merge d1 d2 = d1 ++ d2.
Proof.
  unfold dict_merge. revert d1.
  induction d2 as [|[k v] d2 IH]; intros d1 Hnd Hfresh; simpl.
  - rewrite app_nil_r. reflexivity.
  - apply NoDup_cons in Hnd as [Hk Hnd].
    rewrite dict_set_fresh by (apply Hfresh; left; reflexivity).
    rewrite IH; [rewrite <- app_assoc; reflexivity | exact Hnd |].
    intros k' Hin. apply assoc_app_fresh.
    + intros ->. apply Hk, list_elem_of_In, Hin.
    + apply Hfresh. right. exact Hin.
Qed.

(** C6: a POST built by [_request] with a non-empty list of song ids sends
    one request whose body is the URL-encoded parameters of
    [{**auth, **params}] (the auth parameters, then the caller's, when the
    caller names no auth key), followed by one [songId=...] pair per id, in
    the order of the list. *)
Theorem post_body_song_ids_last `{PyEnv} c endpoint params sid song_ids w :
  let ids := sid :: song_ids in
  let auth := _auth_params c (length (sent w)) in
  let all_params := dict_merge auth params in
  let req := build_request c (length (sent w)) endpoint params POST ids in
  sent (snd (_request c endpoint params POST ids w)) = sent w ++ [req]
  /\ req_method req = POST
  /\ req_data req
     = Some (urlencode all_params +:+ "&"
             +:+ urlencode (map (fun s => ("songId", s)) ids))
  /\ urlencode (map (fun s => ("songId", s)) ids)
     = String.concat "&" (map (fun s => "songId=" +:+ quote_plus s) ids)
  /\ (NoDup (map fst params) ->
      (forall k, In k (map fst params) -> assoc k auth = None) ->
      all_params = auth ++ params).
Proof.
  intros ids auth all_params req.
  split; [rewrite _request_world; reflexivity|].
  split; [reflexivity|].
  split; [|split].
  - unfold req, build_request. simpl req_data. f_equal.
    unfold urlencode. rewrite map_app. apply concat_app.
    + intros Hnil. apply map_eq_nil in Hnil.
      revert Hnil. apply dict_merge_nonempty. discriminate.
    + discriminate.
  - unfold urlencode. rewrite map_map. reflexivity.
  - apply dict_merge_fresh.
Qed.

Lemma post_body_song_ids_last_witness :
  let req := build_request (H := Fixture.created) (Fixture.client true) 0
               "/rest/createPlaylist.view" [("name", "Road trip")] POST
               ["a"; "b"; "c"] in
  req_data req
  = Some ("u=picard&t=5f4dcc3b5aa765d61d8327deb882cf99&s=abcdefghijkl"
          +:+ "&v=1.16.1&c=PicardNavidrome&f=json&name=Road+trip"
          +:+ "&songId=a&songId=b&songId=c").
Proof.
  pose proof (post_body_song_ids_last (H := Fixture.created) (Fixture.client true)
                "/rest/createPlaylist.view" [("name", "Road trip")] "a" ["b"; "c"]
                Fixture.fresh) as T.
  cbv zeta in T. destruct T as (_ & _ & Hd & Hs & Hm).
  intros req. unfold req. simpl length in Hd, Hm. rewrite Hd, Hs, Hm.
  - vm_compute. reflexivity.
  - apply NoDup_cons. split; [apply not_elem_of_nil | apply NoDup_nil_2].
  - intros k [<-|[]]. reflexivity.
Defined.

(** C7, at a body that is the JSON object [{}]: the call fails with the
    fixed message of the missing-envelope check, which names no endpoint,
    whereas the messages for a transport failure and for a body that is not
    JSON both carry the endpoint. *)
Lemma missing_envelope_error_omits_endpoint :
  let c := Fixture.client true in
  let msg := "Unexpected response: missing 'subsonic-response'" in
  fst (_request (H := Fixture.no_envelope) c "/rest/ping.view" [] GET [] Fixture.fresh)
  = Raise (ValueError msg)
  /\ contains "/rest/ping.view" msg = false
  /\ contains "ping" msg = false
  /\ fst (_request (H := Fixture.unreachable) c "/rest/ping.view" [] GET [] Fixture.fresh)
     = Raise (ValueError "HTTP error calling /rest/ping.view: connection refused")
  /\ fst (_request (H := Fixture.garbled) c "/rest/ping.view" [] GET [] Fixture.fresh)
     = Raise (ValueError "Invalid JSON from /rest/ping.view: Expecting value").
Proof. vm_compute. repeat split. Qed.

(** ** The streaming traversal: progress reports *)

Lemma yields_app evs1 evs2 : yields (evs1 ++ evs2) = yields evs1 ++ yields evs2.
Proof. apply omap_app. Qed.

Lemma only_polls_app evs1 evs2 :
  only_polls evs1 -> only_polls evs2 -> only_polls (evs1 ++ evs2).
Proof. intros H1 H2 e Hin. apply in_app_or in Hin as [?|?]; auto. Qed.

Lemma only_polls_yields evs : only_polls evs -> yields evs = [].
Proof.
  induction evs as [|e evs IH]; intros Hp; [reflexivity|].
  destruct (Hp e (or_introl eq_refl)) as [b ->]. simpl.
  apply IH. intros e' Hin. apply Hp. right. exact Hin.
Qed.

Lemma poll_only_polls cancel_flag hist : only_polls (fst (poll cancel_flag hist)).
Proof.
  unfold poll. destruct cancel_flag as [f|]; intros e; simpl; [|tauto].
  intros [<-|[]]. eauto.
Qed.

Lemma report_yields progress_cb fetched total : yields (report progress_cb fetched total) = [].
Proof. unfold report. destruct progress_cb; reflexivity. Qed.

Lemma in_report progress_cb fetched total f t :
  In (Progress f t) (report progress_cb fetched total) -> f = fetched /\ t = total.
Proof.
  unfold report. destruct progress_cb; simpl; [|tauto].
  intros [[= <- <-]|[]]. auto.
Qed.

Lemma first_pass_only_polls `{PyEnv} c page_size cancel_flag remaining :
  forall offset total all_albums hist w evs r w',
    first_pass c page_size cancel_flag remaining offset total all_albums hist w
    = (evs, r, w') ->
    only_polls evs.
Proof.
  induction remaining as [|remaining IH]; intros offset total all_albums hist w evs r w';
    simpl.
  - intros [= <- _ _]. intros e [].
  - pose proof (poll_only_polls cancel_flag hist) as Hp.
    destruct (poll cancel_flag hist) as [polled stop]. simpl in Hp.
    destruct stop; [intros [= <- _ _]; exact Hp|].
    destruct (get_album_list2 _ _ _ _ _) as [[albums|e] w1]; [|intros [= <- _ _]; exact Hp].
    destruct (negb (py_truthy albums)); [intros [= <- _ _]; exact Hp|].
    destruct (py_iter albums) as [items|e]; [|intros [= <- _ _]; exact Hp].
    destruct (page_song_count items 0) as [count|e]; [|intros [= <- _ _]; exact Hp].
    destruct (py_len albums) as [len|e]; [|intros [= <- _ _]; exact Hp].
    destruct (len <? page_size)%Z; [intros [= <- _ _]; exact Hp|].
    destruct (first_pass _ _ _ _ _ _ _ _ _) as [[evs1 r1] w2] eqn:E.
    intros [= <- _ _]. apply only_polls_app; [exact Hp|]. eapply IH, E.
Qed.

(** Inside the song loop every report has counted no more songs than the
    loop yields, and the loop leaves [fetched] raised by that number. *)
Lemma song_loop_progress progress_cb cancel_flag total songs :
  forall fetched hist evs r,
    song_loop progress_cb cancel_flag total songs fetched hist = (evs, r) ->
    (forall f t, In (Progress f t) evs ->
                 f <= fetched + Z.of_nat (length (yields evs)))
    /\ (forall fetched', r = Some fetched' ->
                         fetched' = fetched + Z.of_nat (length (yields evs))).
Proof.
  induction songs as [|s songs IH]; intros fetched hist evs r; simpl.
  - intros [= <- <-]. split; [intros f t []|]. intros f' [= <-]. simpl. lia.
  - pose proof (poll_only_polls cancel_flag hist) as Hp.
    destruct (poll cancel_flag hist) as [polled stop]. simpl in Hp.
    destruct stop.
    + intros [= <- <-]. split; [|discriminate].
      intros f t Hin. destruct (Hp _ Hin) as [b [=]].
    + destruct (song_loop _ _ _ _ _ _) as [evs1 r1] eqn:E.
      apply IH in E as [Hin1 Hr1]. intros [= <- <-].
      rewrite !yields_app, (only_polls_yields _ Hp), report_yields. simpl.
      split.
      * intros f t Hin. apply in_app_or in Hin as [Hin|Hin].
        -- apply in_app_or in Hin as [Hin|Hin]; [destruct (Hp _ Hin) as [b [=]]|].
           apply in_app_or in Hin as [Hin|Hin].
           ++ apply in_report in Hin as [-> _]. lia.
           ++ destruct Hin as [[=]|[]].
        -- apply Hin1 in Hin. lia.
      * intros f' Hr. apply Hr1 in Hr. lia.
Qed.





(** ** The streaming traversal: cancellation *)














Lemma second_pass_step `{PyEnv} c progress_cb cancel_flag total album rest fetched
    hist w polled id r w1 items evs fetched' :
  poll cancel_flag hist = (polled, false) ->
  py_get album "id" (JStr "") = Ok id ->
  py_str id <> "" ->
  get_album c (py_str id) w = (r, w1) ->
  py_iter (match r with Ok songs => songs | Raise _ => JArr [] end) = Ok items ->
  song_loop progress_cb cancel_flag total items fetched (hist ++ polled)
  = (evs, Some fetched') ->
  second_pass c progress_cb cancel_flag total (album :: rest) fetched hist w
  = (let '(evs', out, w2) :=
       second_pass c progress_cb cancel_flag total rest fetched'
         (hist ++ polled ++ evs) w1 in
     (polled ++ evs ++ evs', out, w2)).
Proof.
  intros Hp Hid Hne Hg Hi Hs. cbn [second_pass].
  rewrite Hp, Hid. destruct (String.eqb_spec (py_str id) ""); [contradiction|].
  rewrite Hg, Hi, Hs. reflexivity.
Qed.







(** ** Failures *)

Lemma bind_propagates {A : Type} (request : M json) (k : json -> M A) :
  propagates request (bind request k).
Proof. intros w e w1 Hr. apply bind_Raise, Hr. Qed.

(** C8: in the second pass an album whose [get_album] raises yields
    nothing and reports nothing, the error goes no further, and the traversal
    goes on with the albums after it, [fetched] unchanged.  Each of the nine
    catalogue operations fails exactly as its request fails (for the two
    cached operations, when the lookup misses and a request is made). *)
Theorem album_failure_skipped `{PyEnv} c :
  (forall progress_cb cancel_flag total album rest fetched hist w polled id e w1,
      poll cancel_flag hist = (polled, false) ->
      py_get album "id" (JStr "") = Ok id ->
      py_str id <> "" ->
      get_album c (py_str id) w = (Raise e, w1) ->
      second_pass c progress_cb cancel_flag total (album :: rest) fetched hist w
      = (let '(evs, out, w2) :=
           second_pass c progress_cb cancel_flag total rest fetched (hist ++ polled) w1 in
         (polled ++ evs, out, w2)))
  /\ propagates (_get c "/rest/ping.view" []) (ping c)
  /\ propagates (_get c "/rest/getPlaylists.view" []) (get_playlists c)
  /\ (forall playlist_id,
      propagates (_get c "/rest/getPlaylist.view" [("id", playlist_id)])
        (get_playlist_tracks c playlist_id))
  /\ (forall name song_ids,
      propagates (_post c "/rest/createPlaylist.view" [("name", name)] song_ids)
        (create_playlist c name song_ids))
  /\ (forall playlist_id name public,
      exists params,
        propagates (_post c "/rest/updatePlaylist.view" params [])
          (update_playlist c playlist_id name public))
  /\ (forall playlist_id,
      propagates (_post c "/rest/deletePlaylist.view" [("id", playlist_id)] [])
        (delete_playlist c playlist_id))
  /\ (forall query count offset,
      propagates (_get c "/rest/search3.view"
                    [("query", query); ("songCount", py_str_int count);
                     ("songOffset", py_str_int offset)])
        (search_songs c query count offset))
  /\ (forall list_type size offset w,
      cache_hit c (album_list2_key c list_type size offset) w = None ->
      propagates_at w
        (_get c "/rest/getAlbumList2.view"
           [("type", list_type); ("size", py_str_int size);
            ("offset", py_str_int offset)])
        (get_album_list2 c list_type size offset))
  /\ (forall album_id w,
      cache_hit c (album_key c album_id) w = None ->
      propagates_at w (_get c "/rest/getAlbum.view" [("id", album_id)])
        (get_album c album_id)).
Proof.
  split.
  { intros progress_cb cancel_flag total album rest fetched hist w polled id e w1
      Hp Hid Hne Hg.
    rewrite (second_pass_step _ _ _ _ _ rest fetched _ _ _ _ _ _ [] [] fetched
               Hp Hid Hne Hg eq_refl eq_refl).
    rewrite app_nil_r. reflexivity. }
  repeat split.
  - apply bind_propagates.
  - apply bind_propagates.
  - intros playlist_id. apply bind_propagates.
  - intros name song_ids. apply bind_propagates.
  - intros playlist_id name public. eexists. apply bind_propagates.
  - intros playlist_id. apply bind_propagates.
  - intros query count offset. apply bind_propagates.
  - intros list_type size offset w Hmiss e w1 Hr.
    rewrite get_album_list2_unfold, Hmiss. apply bind_Raise, Hr.
  - intros album_id w Hmiss e w1 Hr.
    rewrite get_album_unfold, Hmiss. apply bind_Raise, Hr.
Qed.

Lemma album_failure_skipped_witness :
  let c := Fixture.client true in
  let refused :=
    ValueError "HTTP error calling /rest/getAlbum.view: connection refused" in
  let run := second_pass (H := Fixture.library) c true None 5
               [Fixture.album "a3" 1; Fixture.album "a4" 1] 0 [] Fixture.fresh in
  fst (get_album (H := Fixture.library) c "a3" Fixture.fresh) = Raise refused
  /\ fst (fst run) = [Progress 1 5; Yield (Fixture.song "s4"); Progress 1 5]
  /\ snd (fst run) = Returned.
Proof.
  intros c refused run.
  pose proof (album_failure_skipped (H := Fixture.library) c)
    as (Hskip & _ & _ & _ & _ & _ & _ & _ & _ & Halbum).
  pose (w1 := snd (_get (H := Fixture.library) c "/rest/getAlbum.view"
                     [("id", "a3")] Fixture.fresh)).
  assert (Hfail : get_album (H := Fixture.library) c "a3" Fixture.fresh
                  = (Raise refused, w1)).
  { apply (Halbum "a3" Fixture.fresh).
    - reflexivity.
    - vm_compute. reflexivity. }
  split; [rewrite Hfail; reflexivity|].
  unfold run.
  rewrite (Hskip true None 5 (Fixture.album "a3" 1) [Fixture.album "a4" 1] 0 []
             Fixture.fresh [] (JStr "a3") refused w1).
  - vm_compute. split; reflexivity.
  - reflexivity.
  - reflexivity.
  - discriminate.
  - exact Hfail.
Defined.

(** ** The streaming traversal: the first pass *)

Lemma reported_total_app `{PyEnv} l1 l2 :
  reported_total (l1 ++ l2) = reported_total l1 + reported_total l2.
Proof. induction l1 as [|a l1 IH]; simpl; [reflexivity | rewrite IH; lia]. Qed.

Lemma page_song_count_sum `{PyEnv} albums :
  Forall (fun a => is_dict a = true) albums ->
  forall count, page_song_count albums count = Ok (count + reported_total albums).
Proof.
  induction 1 as [|album albums Hd _ IH]; intros count.
  - simpl. rewrite Z.add_0_r. reflexivity.
  - destruct album as [| | | | |fields]; try discriminate.
    change (reported_total (JObj fields :: albums))
      with (song_count (JObj fields) + reported_total albums).
    cbn [page_song_count py_get]. rewrite IH.
    unfold song_count. cbn [py_get].
    destruct (py_int _); simpl default; f_equal; lia.
Qed.

Lemma py_str_int_inj a b : py_str_int a = py_str_int b -> a = b.
Proof.
  assert (Hrt : forall z, NilZero.int_of_string (py_str_int z) = Some (Z.to_int z)).
  { intros z. unfold py_str_int. apply NilZero.isi.
    - destruct z as [|p|p]; simpl; try discriminate.
      intros [= Hp]. exact (DecimalPos.Unsigned.to_uint_nonnil p Hp).
    - destruct z as [|p|p]; simpl; try discriminate.
      intros [= Hp]. exact (DecimalPos.Unsigned.to_uint_nonnil p Hp). }
  intros Heq. pose proof (Hrt a) as Ha. rewrite Heq, Hrt in Ha.
  injection Ha as Ha. rewrite <- (DecimalZ.of_to a), <- (DecimalZ.of_to b), Ha.
  reflexivity.
Qed.

Lemma album_list2_key_inj c list_type size o1 o2 :
  album_list2_key c list_type size o1 = album_list2_key c list_type size o2 ->
  o1 = o2.
Proof.
  unfold album_list2_key. intros Hk.
  repeat apply String.app_inj in Hk. apply py_str_int_inj, Hk.
Qed.

Lemma cache_hit_same_cache c key w w0 :
  _global_cache w0 = _global_cache w -> cache_hit c key w0 = cache_hit c key w.
Proof. unfold cache_hit, cache_of. intros ->. reflexivity. Qed.

Lemma cache_hit_store_ne c key key' v w :
  key <> key' -> cache_hit c key (cache_store key' v w) = cache_hit c key w.
Proof.
  intros Hne. unfold cache_hit, cache_store, NavidromeCache_set, NavidromeCache_get.
  destruct (enable_cache c); [|reflexivity].
  change (cache_of {| _global_cache := Some (<[key':=v]> (cache_of w)); sent := sent w |})
    with (<[key':=v]> (cache_of w)).
  rewrite lookup_insert_ne by congruence. reflexivity.
Qed.

Lemma firstn_nil_inv {A : Type} (n : nat) (l : list A) :
  (0 < n)%nat -> firstn n l = [] -> l = [].
Proof. destruct n; [lia|]. destruct l; [reflexivity | discriminate]. Qed.

Lemma firstn_short {A : Type} (n : nat) (l : list A) :
  (length (firstn n l) < n)%nat -> firstn n l = l.
Proof.
  intros Hlt. rewrite length_take in Hlt. apply firstn_all2. lia.
Qed.

(** The first pass from page [i] on, when the server holds [catalog]: it
    adds the counts of all albums from offset [i * page_size] and collects
    these albums. *)
Lemma first_pass_counts `{PyEnv} c page_size cancel_flag catalog :
  0 < page_size ->
  Forall (fun a => is_dict a = true) catalog ->
  serves_catalog c page_size catalog ->
  (forall hist, snd (poll cancel_flag hist) = false) ->
  forall remaining i total all_albums hist w,
    (i * Z.to_nat page_size <= length catalog)%nat ->
    (length catalog - i * Z.to_nat page_size <= remaining * Z.to_nat page_size)%nat ->
    (forall j, (i <= j)%nat ->
               cache_hit c (album_list2_key c "alphabeticalByName" page_size
                              (Z.of_nat j * page_size)) w = None) ->
    exists evs w',
      first_pass c page_size cancel_flag remaining (Z.of_nat i * page_size)
        total all_albums hist w
      = (evs,
         Counted (total + reported_total (skipn (i * Z.to_nat page_size) catalog))
                 (all_albums ++ skipn (i * Z.to_nat page_size) catalog),
         w').
Proof.
  intros Hpos Hd Hserve Hnc.
  set (p := Z.to_nat page_size).
  induction remaining as [|remaining IH]; intros i total all_albums hist w Hi Hrem Hmiss.
  - rewrite skipn_all2 by lia. simpl. rewrite Z.add_0_r, app_nil_r. eauto.
  - cbn [first_pass]. specialize (Hnc hist).
    destruct (poll cancel_flag hist) as [polled stop]. simpl in Hnc. subst stop.
    rewrite get_album_list2_unfold, (Hmiss i (le_n _)).
    destruct (Hserve i w Hi) as (resp & w0 & Hget & Hfield).
    unfold list_field in Hfield.
    destruct (py_get resp "albumList2" _) as [x|e] eqn:Hx; [|discriminate].
    rewrite (fetch_of_response _ _ _ _ _ _ _ _ _ _ _ Hget Hx Hfield).
    cbn [is_dict].
    set (w' := if enable_cache c
               then cache_store
                      (album_list2_key c "alphabeticalByName" page_size
                         (Z.of_nat i * page_size))
                      (JArr (page_of catalog page_size (Z.of_nat i * page_size))) w0
               else w0).
    assert (Hpg : page_of catalog page_size (Z.of_nat i * page_size)
                  = firstn p (skipn (i * p) catalog)).
    { unfold page_of, p. rewrite Z2Nat.inj_mul, Nat2Z.id by lia. reflexivity. }
    rewrite Hpg.
    set (rest := skipn (i * p) catalog).
    assert (Hdr : Forall (fun a => is_dict a = true) (firstn p rest)).
    { apply Forall_take. unfold rest. apply Forall_drop, Hd. }
    destruct (firstn p rest) as [|album page] eqn:Hf.
    + (* an empty page *)
      apply firstn_nil_inv in Hf; [|lia]. rewrite Hf. simpl.
      rewrite Z.add_0_r, app_nil_r. eauto.
    + cbn [py_truthy negb py_iter py_len].
      rewrite (page_song_count_sum _ Hdr 0). rewrite <- Hf in *.
      destruct (Z.ltb_spec (Z.of_nat (length (firstn p rest))) page_size) as [Hlt|Hge].
      * (* a short page *)
        rewrite firstn_short by lia.
        replace (total + (0 + reported_total rest)) with (total + reported_total rest)
          by lia.
        eauto.
      * (* a full page: on to the next one *)
        assert (Hlen : length (firstn p rest) = p).
        { rewrite length_take in *. lia. }
        assert (Hrest : (p <= length rest)%nat)
          by (rewrite length_take in Hlen; lia).
        assert (Hlr : length rest = (length catalog - i * p)%nat)
          by (unfold rest; apply length_drop).
        assert (Hoff : Z.of_nat i * page_size + page_size = Z.of_nat (S i) * page_size)
          by lia.
        rewrite Hoff.
        destruct (IH (S i) (total + (0 + reported_total (firstn p rest)))
                    (all_albums ++ firstn p rest) (hist ++ polled) w')
          as (evs & w2 & ->).
        -- simpl. lia.
        -- simpl. lia.
        -- intros j Hj.
           assert (Hne : album_list2_key c "alphabeticalByName" page_size
                           (Z.of_nat j * page_size)
                         <> album_list2_key c "alphabeticalByName" page_size
                              (Z.of_nat i * page_size)).
           { intros Hk. apply album_list2_key_inj in Hk. nia. }
           assert (Hw0 : cache_hit c (album_list2_key c "alphabeticalByName" page_size
                                        (Z.of_nat j * page_size)) w0 = None).
           { rewrite (cache_hit_same_cache _ _ w); [apply Hmiss; lia|].
             apply _get_world in Hget. subst w0. reflexivity. }
           unfold w'. destruct (enable_cache c); [|exact Hw0].
           rewrite cache_hit_store_ne by exact Hne. exact Hw0.
        -- assert (Hsplit : rest = firstn p rest ++ skipn (S i * p) catalog).
           { rewrite <- (firstn_skipn p rest) at 1. f_equal.
             unfold rest. rewrite skipn_skipn. reflexivity. }
           assert (Hrt : reported_total rest
                         = reported_total (firstn p rest)
                           + reported_total (skipn (S i * p) catalog))
             by (rewrite Hsplit at 1; apply reported_total_app).
           assert (Hal : all_albums ++ rest
                         = (all_albums ++ firstn p rest) ++ skipn (S i * p) catalog)
             by (rewrite Hsplit at 1; apply app_assoc).
           rewrite Hrt, Hal.
           replace (total + (0 + reported_total (firstn p rest))
                    + reported_total (skipn (S i * p) catalog))
             with (total + (reported_total (firstn p rest)
                            + reported_total (skipn (S i * p) catalog))) by lia.
           eauto.
Qed.

(** C5 (amended): when the server holds a catalogue of albums (objects)
    that fits under the page cap ([len(catalog) <= max_pages * page_size]
    with [page_size >= 1]), no page of the listing is cached and the run is
    not cancelled, the first pass collects the whole catalogue and its total
    is the sum of the albums' [songCount] values, whatever the page size; the
    first progress report of the run carries that total. *)
Theorem first_pass_total `{PyEnv} c page_size max_pages cancel_flag catalog w :
  0 < page_size ->
  Z.of_nat (length catalog) <= max_pages * page_size ->
  Forall (fun a => is_dict a = true) catalog ->
  serves_catalog c page_size catalog ->
  (forall offset,
      cache_hit c (album_list2_key c "alphabeticalByName" page_size offset) w = None) ->
  (forall hist, snd (poll cancel_flag hist) = false) ->
  exists evs w',
    first_pass c page_size cancel_flag (Z.to_nat max_pages) 0 0 [] [] w
    = (evs, Counted (reported_total catalog) catalog, w')
    /\ exists evs' out w'',
         iter_all_songs_stream c page_size true cancel_flag max_pages w
         = ((evs ++ [Progress 0 (reported_total catalog)]) ++ evs', out, w'').
Proof.
  intros Hpos Hfit Hd Hserve Hmiss Hnc.
  destruct (first_pass_counts c page_size cancel_flag catalog Hpos Hd Hserve Hnc
              (Z.to_nat max_pages) 0%nat 0 [] [] w) as (evs & w' & Hfp).
  - simpl. lia.
  - simpl. rewrite Nat.sub_0_r.
    destruct (Z.le_gt_cases 0 max_pages) as [Hm|Hm]; [|nia].
    rewrite <- Z2Nat.inj_mul by lia. lia.
  - intros j _. apply Hmiss.
  - change (Z.of_nat 0 * page_size) with 0 in Hfp.
    change (skipn (0 * Z.to_nat page_size) catalog) with catalog in Hfp.
    rewrite Z.add_0_l, app_nil_l in Hfp.
    exists evs, w'. split; [exact Hfp|].
    unfold iter_all_songs_stream. rewrite Hfp.
    destruct (second_pass _ _ _ _ _ _ _ _) as [[evs' out] w''].
    exists evs', out, w''. reflexivity.
Qed.

(** C5, as stated, fails: with two albums to a page and [max_pages = 1]
    the loop stops at the cap after the first page, and the total for the
    counts 3, 5, 0, 2 is 8; the same server gives 10 under the default cap. *)
Lemma page_cap_truncates_total :
  let c := Fixture.client true in
  fst (first_pass (H := Fixture.paged) c 2 None (Z.to_nat 1) 0 0 [] [] Fixture.fresh)
  = ([], Counted 8 [Fixture.album "a1" 3; Fixture.album "a2" 5])
  /\ fst (fst (iter_all_songs_stream (H := Fixture.paged) c 2 true None 1 Fixture.fresh))
     = [Progress 0 8; Progress 0 8]
  /\ fst (first_pass (H := Fixture.paged) c 2 None (Z.to_nat 10000) 0 0 [] []
            Fixture.fresh)
     = ([], Counted 10 Fixture.counted_albums).
Proof. vm_compute. repeat split. Qed.

Lemma first_pass_total_witness :
  exists evs w',
    first_pass (H := Fixture.paged) (Fixture.client true) 2 None (Z.to_nat 10000)
      0 0 [] [] Fixture.fresh
    = (evs, Counted 10 Fixture.counted_albums, w').
Proof.
  destruct (first_pass_total (H := Fixture.paged) (Fixture.client true) 2 10000 None
              Fixture.counted_albums Fixture.fresh) as (evs & w' & Hfp & _).
  - lia.
  - simpl. lia.
  - repeat constructor.
  - intros i w Hi.
    destruct i as [|[|[|i]]]; [| | |simpl in Hi; lia].
    + eexists _, _. split; [lazy; reflexivity | reflexivity].
    + eexists _, _. split; [lazy; reflexivity | reflexivity].
    + eexists _, _. split; [lazy; reflexivity | reflexivity].
  - intros offset. reflexivity.
  - intros hist. reflexivity.
  - exists evs, w'. exact Hfp.
Defined.

(** * Further properties of the client *)

(** ** The cache across calls and clients *)

Lemma fetch_Raise `{PyEnv} c key endpoint params outer inner w e w1 :
  fetch c key endpoint params outer inner w = (Raise e, w1) ->
  _global_cache w1 = _global_cache w.
Proof.
  unfold fetch, bind.
  destruct (_get c endpoint params w) as [[resp|e0] w0] eqn:Hg;
    apply _get_world in Hg; subst w0.
  - unfold lift, cache_result, ret.
    destruct (py_get resp outer _) as [x|e1]; [|intros [= _ <-]; reflexivity].
    destruct (py_get x inner _) as [y|e1]; [|intros [= _ <-]; reflexivity].
    discriminate.
  - intros [= _ <-]. reflexivity.
Qed.


Lemma cache_hit_disabled c key w : enable_cache c = false -> cache_hit c key w = None.
Proof. unfold cache_hit. intros ->. reflexivity. Qed.

(** The songs of an album are fetched once: after [get_album] has returned
    a value other than [None] on a caching client, the same call on any
    caching client with the same base URL returns that value and sends no
    request. *)
Theorem get_album_second_call_cached `{PyEnv} c1 c2 album_id w v w1 :
  enable_cache c1 = true -> enable_cache c2 = true ->
  base_url c1 = base_url c2 ->
  get_album c1 album_id w = (Ok v, w1) ->
  v <> JNull ->
  get_album c2 album_id w1 = (Ok v, w1).
Proof.
  intros E1 E2 Hurl Hfirst Hv.
  assert (Hkey : album_key c2 album_id = album_key c1 album_id)
    by (unfold album_key; rewrite Hurl; reflexivity).
  assert (Hhit : cache_hit c2 (album_key c1 album_id) w1 = Some v).
  { rewrite get_album_unfold in Hfirst.
    destruct (cache_hit c1 _ w) as [cached|] eqn:Hc.
    - injection Hfirst as -> ->.
      unfold cache_hit in *. rewrite E1 in Hc. rewrite E2. exact Hc.
    - apply fetch_Ok in Hfirst as (resp & w0 & x & y & _ & _ & _ & _ & ->).
      rewrite E1. apply cache_hit_stored; assumption. }
  rewrite get_album_unfold, Hkey, Hhit. reflexivity.
Qed.

Lemma get_album_second_call_cached_witness :
  let c := Fixture.client true in
  let first := get_album (H := Fixture.library) c "a2" Fixture.fresh in
  get_album (H := Fixture.library) c "a2" (snd first)
  = (Ok (JArr [Fixture.song "s2"; Fixture.song "s3"]), snd first).
Proof.
  apply (get_album_second_call_cached (H := Fixture.library)
           (Fixture.client true) (Fixture.client true) "a2" Fixture.fresh).
  - reflexivity.
  - reflexivity.
  - reflexivity.
  - vm_compute. reflexivity.
  - discriminate.
Defined.

(** A failure is never cached: when [get_album_list2] or [get_album]
    raises, the cache is exactly what it was before the call. *)
Theorem failed_fetch_stores_nothing `{PyEnv} c w e w1 :
  (forall list_type size offset,
      get_album_list2 c list_type size offset w = (Raise e, w1) ->
      _global_cache w1 = _global_cache w)
  /\ (forall album_id,
      get_album c album_id w = (Raise e, w1) ->
      _global_cache w1 = _global_cache w).
Proof.
  split.
  - intros list_type size offset. rewrite get_album_list2_unfold.
    destruct (cache_hit _ _ _); [discriminate | apply fetch_Raise].
  - intros album_id. rewrite get_album_unfold.
    destruct (cache_hit _ _ _); [discriminate | apply fetch_Raise].
Qed.



(** The two cached operations share one key space: the key of
    [get_album_list2] for a list type, size and offset is the key of
    [get_album] for the album id ["list2_<type>_<size>_<offset>"], so after a
    page of albums has been cached [get_album] on that id returns the page of
    albums, without a request. *)
Theorem album_key_meets_list_key `{PyEnv} c list_type size offset w v w1 :
  enable_cache c = true ->
  get_album_list2 c list_type size offset w = (Ok v, w1) ->
  v <> JNull ->
  let album_id := "list2_" +:+ list_type +:+ "_" +:+ py_str_int size
                  +:+ "_" +:+ py_str_int offset in
  album_key c album_id = album_list2_key c list_type size offset
  /\ get_album c album_id w1 = (Ok v, w1).
Proof.
  intros Hc Hfirst Hv album_id.
  assert (Hkey : album_key c album_id = album_list2_key c list_type size offset)
    by reflexivity.
  split; [exact Hkey|].
  rewrite get_album_unfold, Hkey.
  rewrite get_album_list2_unfold in Hfirst.
  destruct (cache_hit c _ w) as [cached|] eqn:Hhit.
  - injection Hfirst as -> ->. rewrite Hhit. reflexivity.
  - apply fetch_Ok in Hfirst as (resp & w0 & x & y & _ & _ & _ & _ & ->).
    rewrite Hc, cache_hit_stored by assumption. reflexivity.
Qed.

Lemma album_key_meets_list_key_witness :
  let c := Fixture.client true in
  let first := get_album_list2 (H := Fixture.library) c "alphabeticalByName" 500 0
                 Fixture.fresh in
  get_album (H := Fixture.library) c "list2_alphabeticalByName_500_0" (snd first)
  = (Ok (JArr Fixture.four_albums), snd first).
Proof.
  intros c first.
  refine (proj2 (album_key_meets_list_key (H := Fixture.library) c
                   "alphabeticalByName" 500 0 Fixture.fresh
                   (JArr Fixture.four_albums) (snd first) eq_refl _ _)).
  - vm_compute. reflexivity.
  - discriminate.
Defined.

(** ** Building clients *)

Lemma ends_with_slash_append b : ends_with_slash (b +:+ "/") = true.
Proof.
  induction b as [|a b IH]; [reflexivity|].
  destruct b as [|a' b]; [reflexivity|].
  change (ends_with_slash (String a' b +:+ "/") = true). exact IH.
Qed.

Lemma drop_last_append b : drop_last (b +:+ "/") = b.
Proof.
  induction b as [|a b IH]; [reflexivity|].
  destruct b as [|a' b]; [reflexivity|].
  change (String a (drop_last (String a' b +:+ "/")) = String a (String a' b)).
  rewrite IH. reflexivity.
Qed.

Lemma get_album_leaves_hit `{PyEnv} c album_id w v w1 :
  enable_cache c = true ->
  get_album c album_id w = (Ok v, w1) ->
  v <> JNull ->
  cache_hit c (album_key c album_id) w1 = Some v.
Proof.
  intros Hc Hfirst Hv. rewrite get_album_unfold in Hfirst.
  destruct (cache_hit c _ w) as [cached|] eqn:Hhit.
  - injection Hfirst as -> ->. exact Hhit.
  - apply fetch_Ok in Hfirst as (resp & w0 & x & y & _ & _ & _ & _ & ->).
    rewrite Hc. apply cache_hit_stored; assumption.
Qed.

Lemma cache_hit_global c key w v :
  cache_hit c key w = Some v -> exists m, _global_cache w = Some m.
Proof.
  unfold cache_hit, cache_of, NavidromeCache_get.
  destruct (enable_cache c); [|discriminate].
  destruct (_global_cache w) as [m|]; [eauto|].
  simpl. rewrite lookup_empty. discriminate.
Qed.

(** In the URL a client is built from, one trailing slash makes no
    difference: the client is the same. *)
Theorem trailing_slash_same_client (url user pass api app : string)
    (verify : bool) (timeout : Z) (enable : bool) (w : world) :
  ends_with_slash url = false ->
  fst (SubsonicClient_init (url +:+ "/") user pass api app verify timeout enable w)
  = fst (SubsonicClient_init url user pass api app verify timeout enable w).
Proof.
  intros Hs. unfold SubsonicClient_init. simpl fst.
  rewrite ends_with_slash_append, drop_last_append, Hs. reflexivity.
Qed.

Lemma trailing_slash_same_client_witness :
  base_url (fst (SubsonicClient_init "https://nav.example.com/" "picard" "secret"
                   "1.16.1" "PicardNavidrome" true 15 true Fixture.fresh))
  = "https://nav.example.com".
Proof.
  exact (f_equal base_url
           (trailing_slash_same_client "https://nav.example.com" "picard" "secret"
              "1.16.1" "PicardNavidrome" true 15 true Fixture.fresh eq_refl)).
Defined.

(** The cache outlives the client that filled it: after [get_album] has
    returned a value other than [None] on a caching client, a caching client
    built afterwards for the same server (here with a trailing slash in its
    URL) changes nothing in the world and gets that value from the cache. *)
Theorem later_client_served_from_cache `{PyEnv} c1 album_id w v w1
    (user pass api app : string) (verify : bool) (timeout : Z) :
  enable_cache c1 = true ->
  get_album c1 album_id w = (Ok v, w1) ->
  v <> JNull ->
  let built := SubsonicClient_init (base_url c1 +:+ "/") user pass api app
                 verify timeout true w1 in
  snd built = w1 /\ get_album (fst built) album_id w1 = (Ok v, w1).
Proof.
  intros Hc Hfirst Hv built.
  pose proof (get_album_leaves_hit _ _ _ _ _ Hc Hfirst Hv) as Hhit.
  destruct (cache_hit_global _ _ _ _ Hhit) as [m Hm].
  split.
  - unfold built, SubsonicClient_init, _get_global_cache. simpl. rewrite Hm.
    reflexivity.
  - rewrite get_album_unfold.
    assert (Hkey : album_key (fst built) album_id = album_key c1 album_id).
    { unfold album_key, built, SubsonicClient_init. simpl.
      rewrite ends_with_slash_append, drop_last_append. reflexivity. }
    rewrite Hkey.
    assert (Hsame : cache_hit (fst built) (album_key c1 album_id) w1
                    = cache_hit c1 (album_key c1 album_id) w1)
      by (unfold cache_hit; rewrite Hc; reflexivity).
    rewrite Hsame, Hhit. reflexivity.
Qed.

Lemma later_client_served_from_cache_witness :
  let first := get_album (H := Fixture.library) (Fixture.client true) "a1"
                 Fixture.fresh in
  let built := SubsonicClient_init "https://nav.example.com/" "other" "pw"
                 "1.16.1" "PicardNavidrome" false 30 true (snd first) in
  snd built = snd first
  /\ get_album (H := Fixture.library) (fst built) "a1" (snd first)
     = (Ok (JArr [Fixture.song "s1"]), snd first).
Proof.
  intros first.
  apply (later_client_served_from_cache (H := Fixture.library) (Fixture.client true)
           "a1" Fixture.fresh (JArr [Fixture.song "s1"]) (snd first)
           "other" "pw" "1.16.1" "PicardNavidrome" false 30).
  - reflexivity.
  - vm_compute. reflexivity.
  - discriminate.
Defined.

(** ** What a call changes in the cache *)

Lemma fetch_cache `{PyEnv} c key endpoint params outer inner w :
  cache_of (snd (fetch c key endpoint params outer inner w)) = cache_of w
  \/ exists v, cache_of (snd (fetch c key endpoint params outer inner w))
               = <[key := v]> (cache_of w).
Proof.
  unfold fetch, bind.
  destruct (_get c endpoint params w) as [[resp|e0] w0] eqn:Hg;
    apply _get_world in Hg; subst w0; [|left; reflexivity].
  unfold lift, cache_result, ret.
  destruct (py_get resp outer _) as [x|e1]; [|left; reflexivity].
  destruct (py_get x inner _) as [y|e1]; [|left; reflexivity].
  simpl. destruct (enable_cache c); [right; eexists; reflexivity | left; reflexivity].
Qed.

Lemma cached_call_cache `{PyEnv} c key (call : M json) endpoint params outer inner w :
  call w = match cache_hit c key w with
           | Some cached => (Ok cached, w)
           | None => fetch c key endpoint params outer inner w
           end ->
  cache_of (snd (call w)) = cache_of w
  \/ exists v, cache_of (snd (call w)) = <[key := v]> (cache_of w).
Proof.
  intros ->. destruct (cache_hit c key w); [left; reflexivity | apply fetch_cache].
Qed.

(** A cached call changes no cache entry but the one under its own key. *)
Theorem cached_call_touches_own_key `{PyEnv} c list_type size offset album_id w key :
  (key <> album_list2_key c list_type size offset ->
   cache_of (snd (get_album_list2 c list_type size offset w)) !! key
   = cache_of w !! key)
  /\ (key <> album_key c album_id ->
      cache_of (snd (get_album c album_id w)) !! key = cache_of w !! key).
Proof.
  split; intros Hne.
  - destruct (cached_call_cache c _ _ _ _ _ _ w
                (get_album_list2_unfold c list_type size offset w)) as [->|[v ->]];
      [reflexivity | apply lookup_insert_ne; congruence].
  - destruct (cached_call_cache c _ _ _ _ _ _ w (get_album_unfold c album_id w))
      as [->|[v ->]];
      [reflexivity | apply lookup_insert_ne; congruence].
Qed.

(** The entry count reported by [get_cache_stats] is 0 right after
    [clear_cache], and a call of [get_album_list2] or [get_album] on a caching
    client adds at most one entry and removes none. *)
Theorem cache_entries_grow_by_one `{PyEnv} c c' list_type size offset album_id w :
  enable_cache c = true ->
  assoc "entries" (get_cache_stats c (clear_cache c' w)) = Some 0
  /\ exists n,
       assoc "entries" (get_cache_stats c w) = Some n
       /\ (exists m,
              assoc "entries"
                (get_cache_stats c (snd (get_album_list2 c list_type size offset w)))
              = Some m /\ n <= m <= n + 1)
       /\ (exists m,
              assoc "entries" (get_cache_stats c (snd (get_album c album_id w)))
              = Some m /\ n <= m <= n + 1).
Proof.
  intros Hc. unfold get_cache_stats. rewrite Hc. simpl.
  assert (Hgrow : forall key (m : gmap string json) v,
             (base.size m <= base.size (<[key := v]> m) <= S (base.size m))%nat).
  { intros key m v. rewrite map_size_insert. destruct (m !! key); simpl; lia. }
  split.
  - f_equal. destruct w as [[m|] s]; reflexivity.
  - eexists. split; [reflexivity|]. split.
    + eexists. split; [reflexivity|].
      destruct (cached_call_cache c _ _ _ _ _ _ w
                  (get_album_list2_unfold c list_type size offset w)) as [->|[v ->]];
        [lia|]. pose proof (Hgrow (album_list2_key c list_type size offset)
                              (cache_of w) v). lia.
    + eexists. split; [reflexivity|].
      destruct (cached_call_cache c _ _ _ _ _ _ w (get_album_unfold c album_id w))
        as [->|[v ->]]; [lia|].
      pose proof (Hgrow (album_key c album_id) (cache_of w) v). lia.
Qed.

Lemma cache_entries_grow_by_one_witness :
  let c := Fixture.client true in
  exists m,
    assoc "entries"
      (get_cache_stats c (snd (get_album (H := Fixture.library) c "a1" Fixture.fresh)))
    = Some m
    /\ 0 <= m <= 1.
Proof.
  intros c.
  destruct (cache_entries_grow_by_one (H := Fixture.library) c c "alphabeticalByName"
              500 0 "a1" Fixture.fresh eq_refl) as (_ & n & Hn & _ & m & Hm & Hle).
  injection Hn as <-. exists m. split; [exact Hm | exact Hle].
Defined.

(** ** Requests: the envelope, errors, the endpoint, the body *)

Lemma is_ok_inv status : is_ok status = true -> status = JStr "ok".
Proof.
  destruct status; try discriminate. simpl. intros Hs.
  apply String.eqb_eq in Hs. subst. reflexivity.
Qed.

Lemma check_envelope_inv `{PyEnv} payload resp :
  check_envelope payload = Ok resp ->
  exists d fields,
    payload = JObj d /\ assoc "subsonic-response" d = Some resp
    /\ resp = JObj fields /\ assoc "status" fields = Some (JStr "ok").
Proof.
  unfold check_envelope. intros Hc.
  destruct payload as [| | |s|l|d]; try discriminate.
  - simpl in Hc. destruct (contains _ s); discriminate.
  - simpl in Hc. destruct (existsb _ l); discriminate.
  - simpl in Hc. destruct (bool_decide _); [|discriminate].
    destruct (assoc "subsonic-response" d) as [r|] eqn:Hr; [|discriminate].
    destruct r as [| | | | |fields]; try discriminate. simpl in Hc.
    destruct (is_ok _) eqn:Hok.
    + injection Hc as <-. exists d, fields. repeat split; try assumption.
      apply is_ok_inv in Hok.
      destruct (assoc "status" fields); simpl in Hok; [congruence | discriminate].
    + destruct (default _ (assoc "error" fields)); discriminate.
Qed.

Lemma check_envelope_ok `{PyEnv} d fields :
  assoc "subsonic-response" d = Some (JObj fields) ->
  assoc "status" fields = Some (JStr "ok") ->
  check_envelope (JObj d) = Ok (JObj fields).
Proof.
  intros Hr Hs. unfold check_envelope. simpl. rewrite Hr. simpl.
  rewrite Hs. reflexivity.
Qed.

(** [_request] returns exactly when the body is a JSON object whose
    ['subsonic-response'] member is an object with [status] equal to ["ok"];
    what it returns is that member. *)
Theorem request_returns_iff `{PyEnv} c endpoint params method song_ids w resp :
  fst (_request c endpoint params method song_ids w) = Ok resp
  <-> exists data d fields,
        urlopen (sent w)
          (build_request c (length (sent w)) endpoint params method song_ids)
        = inr data
        /\ json_loads data = inr (JObj d)
        /\ assoc "subsonic-response" d = Some resp
        /\ resp = JObj fields
        /\ assoc "status" fields = Some (JStr "ok").
Proof.
  unfold _request. split.
  - destruct (urlopen _ _) as [exc|data]; [discriminate|].
    destruct (json_loads data) as [exc|payload] eqn:Hj; [discriminate|].
    simpl. intros Hc.
    apply check_envelope_inv in Hc as (d & fields & -> & Hr & -> & Hs).
    exists data, d, fields. auto.
  - intros (data & d & fields & -> & -> & Hr & -> & Hs). simpl.
    apply check_envelope_ok; assumption.
Qed.

(** When the envelope's status is not ["ok"], [_request] raises a
    [ValueError] whose message is ["Subsonic error <code>: <message>"], with
    the [code] and [message] members of the envelope's [error] object as
    [str] prints them ([None] for a missing member). *)
Theorem application_error_message `{PyEnv} c endpoint params method song_ids w
    data d fields err :
  urlopen (sent w) (build_request c (length (sent w)) endpoint params method song_ids)
  = inr data ->
  json_loads data = inr (JObj d) ->
  assoc "subsonic-response" d = Some (JObj fields) ->
  assoc "status" fields <> Some (JStr "ok") ->
  assoc "error" fields = Some (JObj err) ->
  fst (_request c endpoint params method song_ids w)
  = Raise (ValueError ("Subsonic error "
                       +:+ py_str (default JNull (assoc "code" err))
                       +:+ ": "
                       +:+ py_str (default JNull (assoc "message" err)))).
Proof.
  intros Hu Hj Hr Hs He. unfold _request. rewrite Hu, Hj. simpl.
  unfold check_envelope. simpl. rewrite Hr. simpl.
  destruct (is_ok _) eqn:Hok.
  - apply is_ok_inv in Hok.
    destruct (assoc "status" fields); simpl in Hok; [|discriminate].
    subst. contradiction.
  - rewrite He. reflexivity.
Qed.

Lemma application_error_message_witness :
  fst (_request (H := Fixture.denied) (Fixture.client true) "/rest/ping.view" []
         GET [] Fixture.fresh)
  = Raise (ValueError "Subsonic error 40: Wrong username or password").
Proof.
  refine (application_error_message (H := Fixture.denied) (Fixture.client true)
            "/rest/ping.view" [] GET [] Fixture.fresh "denied" _ _
            [("code", JNum 40); ("message", JStr "Wrong username or password")]
            _ _ _ _ _).
  - vm_compute. reflexivity.
  - reflexivity.
  - reflexivity.
  - discriminate.
  - reflexivity.
Defined.

(** An endpoint given without its leading slash is the same call as the
    endpoint with it: same request, same result, same error text. *)
Theorem endpoint_slash_supplied `{PyEnv} c endpoint params method song_ids w :
  String.prefix "/" endpoint = false ->
  _request c endpoint params method song_ids w
  = _request c ("/" +:+ endpoint) params method song_ids w.
Proof.
  intros Hp.
  assert (Hs : String.prefix "/" ("/" +:+ endpoint) = true).
  { change ("/" +:+ endpoint) with (String "/" endpoint). simpl.
    destruct (ascii_dec "/" "/") as [_|Hne]; [|destruct Hne; reflexivity].
    destruct endpoint; reflexivity. }
  unfold _request, build_request, normal_endpoint. rewrite Hp, Hs.
  reflexivity.
Qed.

Lemma endpoint_slash_supplied_witness :
  _request (H := Fixture.unreachable) (Fixture.client true) "rest/ping.view" []
    GET [] Fixture.fresh
  = _request (H := Fixture.unreachable) (Fixture.client true) "/rest/ping.view" []
      GET [] Fixture.fresh.
Proof.
  exact (endpoint_slash_supplied (H := Fixture.unreachable) (Fixture.client true)
           "rest/ping.view" [] GET [] Fixture.fresh eq_refl).
Defined.

Lemma count_char_app c (s1 s2 : string) :
  count_char c (s1 +:+ s2) = (count_char c s1 + count_char c s2)%nat.
Proof.
  induction s1 as [|a s1 IH]; [reflexivity|].
  rewrite append_cons. simpl. rewrite IH. lia.
Qed.

(** Quoting a byte never produces a separator. *)
Lemma quote_byte_no_separator b :
  count_char "&" (quote_byte b) = 0%nat /\ count_char "=" (quote_byte b) = 0%nat.
Proof.
  destruct b as [[] [] [] [] [] [] [] []]; split; reflexivity.
Qed.

Lemma quote_plus_no_separator s :
  count_char "&" (quote_plus s) = 0%nat /\ count_char "=" (quote_plus s) = 0%nat.
Proof.
  induction s as [|a s [IH1 IH2]]; [split; reflexivity|].
  simpl. rewrite !count_char_app, IH1, IH2.
  destruct (quote_byte_no_separator a) as [-> ->]. split; reflexivity.
Qed.

Lemma urlencode_separators pairs :
  count_char "=" (urlencode pairs) = length pairs
  /\ count_char "&" (urlencode pairs) = (length pairs - 1)%nat.
Proof.
  unfold urlencode. induction pairs as [|[k v] pairs [IHe IHa]]; [split; reflexivity|].
  assert (Hitem : count_char "=" (quote_plus k +:+ "=" +:+ quote_plus v) = 1%nat
                  /\ count_char "&" (quote_plus k +:+ "=" +:+ quote_plus v) = 0%nat).
  { rewrite !count_char_app.
    destruct (quote_plus_no_separator k) as [-> ->].
    destruct (quote_plus_no_separator v) as [-> ->]. split; reflexivity. }
  destruct Hitem as [He Ha].
  destruct pairs as [|p pairs].
  - simpl. auto.
  - cbn [map fst snd]. rewrite concat_cons by discriminate.
    cbn [map fst snd] in IHe, IHa.
    pose proof (quote_plus_no_separator k) as [Hk1 Hk2].
    pose proof (quote_plus_no_separator v) as [Hv1 Hv2].
    split; rewrite !count_char_app;
      [rewrite IHe, Hk2, Hv2 | rewrite IHa, Hk1, Hv1]; simpl; lia.
Qed.

(** Whatever characters the parameter names, values and song ids hold, the
    body of a POST has exactly one [key=value] pair per merged parameter and
    per song id: quoting leaves no [&] or [=] that could add or split one. *)
Theorem post_body_counts_pairs `{PyEnv} c k endpoint params song_ids :
  exists body,
    req_data (build_request c k endpoint params POST song_ids) = Some body
    /\ count_char "=" body
       = (length (dict_merge (_auth_params c k) params) + length song_ids)%nat
    /\ count_char "&" body
       = (length (dict_merge (_auth_params c k) params) + length song_ids - 1)%nat.
Proof.
  unfold build_request. simpl req_data. eexists. split; [reflexivity|].
  destruct song_ids as [|sid song_ids].
  - destruct (urlencode_separators (dict_merge (_auth_params c k) params))
      as [-> ->]. simpl. split; lia.
  - destruct (urlencode_separators
                (dict_merge (_auth_params c k) params
                 ++ map (fun sid => ("songId", sid)) (sid :: song_ids)))
      as [-> ->].
    rewrite length_app, length_map. split; reflexivity.
Qed.

(** ** What the list operations return *)

Lemma _request_status `{PyEnv} c endpoint params method song_ids w resp w' :
  _request c endpoint params method song_ids w = (Ok resp, w') ->
  exists fields, resp = JObj fields /\ assoc "status" fields = Some (JStr "ok").
Proof.
  unfold _request. destruct (urlopen _ _) as [exc|data]; [discriminate|].
  destruct (json_loads data) as [exc|payload]; [discriminate|].
  intros [= Hc _].
  apply check_envelope_inv in Hc as (d & fields & _ & _ & -> & Hs). eauto.
Qed.

(** The result of a list operation, read off the answer to its request. *)
Lemma reads_result `{PyEnv} c w op request outer inner resp w0 :
  reads c w op request outer inner ->
  request w = (Ok resp, w0) ->
  fst (op w) = match list_field resp outer inner with
               | Ok y => Ok (if is_dict y then JArr [y] else y)
               | Raise e => Raise e
               end.
Proof.
  assert (Hplain : forall endpoint params,
    _get c endpoint params w = (Ok resp, w0) ->
    fst ((resp <- _get c endpoint params ;;
          x <- lift (py_get resp outer (JObj [])) ;;
          y <- lift (py_get x inner (JArr [])) ;;
          ret (if is_dict y then JArr [y] else y)) w)
    = match list_field resp outer inner with
      | Ok y => Ok (if is_dict y then JArr [y] else y)
      | Raise e => Raise e
      end).
  { intros endpoint params Hg. rewrite (bind_step _ _ _ _ _ Hg).
    unfold bind, lift, ret, list_field.
    destruct (py_get resp outer _) as [x|e]; [|reflexivity].
    destruct (py_get x inner _) as [y|e]; reflexivity. }
  assert (Hfetch : forall key endpoint params,
    _get c endpoint params w = (Ok resp, w0) ->
    fst (fetch c key endpoint params outer inner w)
    = match list_field resp outer inner with
      | Ok y => Ok (if is_dict y then JArr [y] else y)
      | Raise e => Raise e
      end).
  { intros key endpoint params Hg. unfold fetch. rewrite (bind_step _ _ _ _ _ Hg).
    unfold bind, lift, ret, cache_result, list_field.
    destruct (py_get resp outer _) as [x|e]; [|reflexivity].
    destruct (py_get x inner _) as [y|e]; reflexivity. }
  intros Hr Hg. destruct Hr as [| | |list_type size offset Hmiss|album_id Hmiss].
  - apply (Hplain _ _ Hg).
  - apply (Hplain _ _ Hg).
  - apply (Hplain _ _ Hg).
  - rewrite get_album_list2_unfold, Hmiss. apply (Hfetch _ _ _ Hg).
  - rewrite get_album_unfold, Hmiss. apply (Hfetch _ _ _ Hg).
Qed.

(** [ping] never returns [False]: it returns [True] or raises. *)
Theorem ping_returns_only_true `{PyEnv} c w b w' :
  ping c w = (Ok b, w') -> b = true.
Proof.
  unfold ping. intros Hp.
  apply bind_Ok in Hp as (resp & w1 & Hg & Hp).
  apply _request_status in Hg as (fields & -> & Hs).
  apply bind_Ok in Hp as (status & w2 & Hl & Hr).
  apply lift_Ok in Hl as [Hl ->]. simpl in Hl. rewrite Hs in Hl.
  injection Hl as <-. unfold ret in Hr. injection Hr as <- _. reflexivity.
Qed.

Lemma ping_returns_only_true_witness :
  fst (ping (H := Fixture.single_objects) (Fixture.client true) Fixture.fresh) = Ok true.
Proof.
  pose proof (ping_returns_only_true (H := Fixture.single_objects)
                (Fixture.client true) Fixture.fresh) as Hp.
  destruct (ping (H := Fixture.single_objects) (Fixture.client true) Fixture.fresh)
    as [[b|e] w'] eqn:E.
  - rewrite (Hp b w' eq_refl). reflexivity.
  - vm_compute in E. discriminate.
Defined.

(** Nothing there is an empty result: when the answer has no [outer]
    member, or its [outer] object has no [inner] member, each list operation
    returns the empty list. *)
Theorem missing_list_is_empty `{PyEnv} c w op request outer inner resp w0 fields :
  reads c w op request outer inner ->
  request w = (Ok resp, w0) ->
  resp = JObj fields ->
  (assoc outer fields = None
   \/ exists inner_fields,
        assoc outer fields = Some (JObj inner_fields)
        /\ assoc inner inner_fields = None) ->
  fst (op w) = Ok (JArr []).
Proof.
  intros Hr Hg -> Hlack. rewrite (reads_result _ _ _ _ _ _ _ _ Hr Hg).
  unfold list_field. simpl.
  destruct Hlack as [->|(inner_fields & -> & Hi)]; simpl; [reflexivity|].
  rewrite Hi. reflexivity.
Qed.

Lemma missing_list_is_empty_witness :
  fst (get_playlists (H := Fixture.bare) (Fixture.client true) Fixture.fresh)
  = Ok (JArr []).
Proof.
  refine (missing_list_is_empty (H := Fixture.bare) (Fixture.client true)
            Fixture.fresh _ _ "playlists" "playlist" (JObj [("status", JStr "ok")])
            (snd (_get (H := Fixture.bare) (Fixture.client true)
                    "/rest/getPlaylists.view" [] Fixture.fresh))
            _ (reads_playlists _ _) _ eq_refl _).
  - vm_compute. reflexivity.
  - left. reflexivity.
Defined.

(** When the [outer] member of the answer is there but is not an object
    (JSON [null], a list, a string, a number), each list operation raises
    [AttributeError]. *)
Theorem malformed_outer_raises `{PyEnv} c w op request outer inner resp w0 fields x :
  reads c w op request outer inner ->
  request w = (Ok resp, w0) ->
  resp = JObj fields ->
  assoc outer fields = Some x ->
  is_dict x = false ->
  fst (op w) = Raise AttributeError.
Proof.
  intros Hr Hg -> Ho Hx. rewrite (reads_result _ _ _ _ _ _ _ _ Hr Hg).
  unfold list_field. simpl. rewrite Ho. simpl.
  destruct x; try reflexivity. discriminate.
Qed.

Lemma malformed_outer_raises_witness :
  fst (get_playlists (H := Fixture.null_outer) (Fixture.client true) Fixture.fresh)
  = Raise AttributeError.
Proof.
  refine (malformed_outer_raises (H := Fixture.null_outer) (Fixture.client true)
            Fixture.fresh _ _ "playlists" "playlist"
            (JObj [("status", JStr "ok"); ("playlists", JNull)])
            (snd (_get (H := Fixture.null_outer) (Fixture.client true)
                    "/rest/getPlaylists.view" [] Fixture.fresh))
            _ JNull (reads_playlists _ _) _ eq_refl eq_refl eq_refl).
  vm_compute. reflexivity.
Defined.

(** ** The traversals at their edges *)

(** When the request for the first page of albums fails, both traversals
    fail with that error: the generator has yielded and reported nothing, and
    [iter_all_songs] returns no partial list. *)
Theorem first_page_failure_aborts `{PyEnv} c page_size progress_cb cancel_flag
    max_pages w e w1 :
  0 < max_pages ->
  snd (poll cancel_flag []) = false ->
  get_album_list2 c "alphabeticalByName" page_size 0 w = (Raise e, w1) ->
  iter_all_songs_stream c page_size progress_cb cancel_flag max_pages w
  = (fst (poll cancel_flag []), Raised e, w1)
  /\ yields (fst (poll cancel_flag [])) = []
  /\ iter_all_songs c page_size max_pages w = (Raise e, w1).
Proof.
  intros Hmax Hpoll Hpage.
  unfold iter_all_songs_stream, iter_all_songs.
  destruct (Z.to_nat max_pages) as [|remaining] eqn:Hr; [lia|].
  cbn [first_pass collect_pages]. rewrite Hpage.
  destruct (poll cancel_flag []) as [polled stop] eqn:Hp. simpl in Hpoll. subst stop.
  simpl. split; [reflexivity|]. split; [|reflexivity].
  apply only_polls_yields. pose proof (poll_only_polls cancel_flag []) as Ho.
  rewrite Hp in Ho. exact Ho.
Qed.

Lemma first_page_failure_aborts_witness :
  let refused :=
    ValueError "HTTP error calling /rest/getAlbumList2.view: connection refused" in
  fst (iter_all_songs_stream (H := Fixture.unreachable) (Fixture.client true) 500
         true None 10000 Fixture.fresh)
  = ([], Raised refused)
  /\ fst (iter_all_songs (H := Fixture.unreachable) (Fixture.client true) 500 10000
            Fixture.fresh)
     = Raise refused.
Proof.
  intros refused.
  destruct (first_page_failure_aborts (H := Fixture.unreachable) (Fixture.client true)
              500 true None 10000 Fixture.fresh refused
              (snd (get_album_list2 (H := Fixture.unreachable) (Fixture.client true)
                      "alphabeticalByName" 500 0 Fixture.fresh)))
    as (Hs & _ & Hc).
  - lia.
  - reflexivity.
  - vm_compute. reflexivity.
  - rewrite Hs, Hc. split; reflexivity.
Defined.

(** With a page cap of zero or less neither traversal sends a request:
    the generator only makes its two progress reports, both [(0, 0)], and
    [iter_all_songs] returns the empty list. *)
Theorem no_pages_no_requests `{PyEnv} c page_size progress_cb cancel_flag max_pages w :
  max_pages <= 0 ->
  iter_all_songs_stream c page_size progress_cb cancel_flag max_pages w
  = (report progress_cb 0 0 ++ report progress_cb 0 0, Returned, w)
  /\ iter_all_songs c page_size max_pages w = (Ok [], w).
Proof.
  intros Hmax. unfold iter_all_songs_stream, iter_all_songs.
  replace (Z.to_nat max_pages) with 0%nat by lia. split; reflexivity.
Qed.

Lemma no_pages_no_requests_witness :
  iter_all_songs_stream (H := Fixture.library) (Fixture.client true) 500 true None 0
    Fixture.fresh
  = ([Progress 0 0; Progress 0 0], Returned, Fixture.fresh).
Proof.
  exact (proj1 (no_pages_no_requests (H := Fixture.library) (Fixture.client true)
                  500 true None 0 Fixture.fresh ltac:(lia))).
Defined.

Lemma get_album_list2_sends_at_most_one `{PyEnv} c list_type size offset w :
  (length (sent (snd (get_album_list2 c list_type size offset w)))
   <= S (length (sent w)))%nat.
Proof.
  rewrite get_album_list2_unfold. destruct (cache_hit _ _ _); [simpl; lia|].
  rewrite fetch_sends_one, length_app. simpl. lia.
Qed.

Lemma first_pass_sent `{PyEnv} c page_size cancel_flag remaining :
  forall offset total all_albums hist w evs r w',
    first_pass c page_size cancel_flag remaining offset total all_albums hist w
    = (evs, r, w') ->
    (length (sent w') <= length (sent w) + remaining)%nat.
Proof.
  induction remaining as [|remaining IH];
    intros offset total all_albums hist w evs r w'; cbn [first_pass].
  - intros [= _ _ <-]. lia.
  - destruct (poll cancel_flag hist) as [polled stop].
    destruct stop; [intros [= _ _ <-]; lia|].
    pose proof (get_album_list2_sends_at_most_one c "alphabeticalByName" page_size
                  offset w) as Hone.
    destruct (get_album_list2 _ _ _ _ _) as [[albums|e] w1]; simpl in Hone;
      [|intros [= _ _ <-]; lia].
    destruct (negb (py_truthy albums)); [intros [= _ _ <-]; lia|].
    destruct (py_iter albums) as [items|e]; [|intros [= _ _ <-]; lia].
    destruct (page_song_count items 0) as [count|e]; [|intros [= _ _ <-]; lia].
    destruct (py_len albums) as [len|e]; [|intros [= _ _ <-]; lia].
    destruct (len <? page_size)%Z; [intros [= _ _ <-]; lia|].
    destruct (first_pass _ _ _ _ _ _ _ _ _) as [[evs1 r1] w2] eqn:E.
    apply IH in E. intros [= _ _ <-]. lia.
Qed.

(** The first pass never asks for more pages than the cap: it sends at
    most [max_pages] requests. *)
Theorem first_pass_within_page_cap `{PyEnv} c page_size cancel_flag max_pages
    w evs r w' :
  first_pass c page_size cancel_flag (Z.to_nat max_pages) 0 0 [] [] w = (evs, r, w') ->
  (length (sent w') <= length (sent w) + Z.to_nat max_pages)%nat.
Proof. apply first_pass_sent. Qed.

Lemma first_pass_within_page_cap_witness :
  (length (sent (snd (first_pass (H := Fixture.paged) (Fixture.client true) 2 None
                        (Z.to_nat 1) 0 0 [] [] Fixture.fresh)))
   <= 1)%nat.
Proof.
  refine (first_pass_within_page_cap (H := Fixture.paged) (Fixture.client true) 2
            None 1 Fixture.fresh _ _ _ _).
  vm_compute. reflexivity.
Defined.

(** ** The progress reports of a run *)

Lemma numbered_polls total fetched polled evs :
  only_polls polled -> numbered total fetched evs ->
  numbered total fetched (polled ++ evs).
Proof.
  induction polled as [|e polled IH]; intros Hp Hn; [exact Hn|].
  destruct (Hp e (or_introl eq_refl)) as [b ->]. simpl.
  apply numbered_poll, IH; [|exact Hn]. intros e' Hin. apply Hp. right. exact Hin.
Qed.

Lemma song_loop_numbered cancel_flag total songs :
  forall fetched hist evs r tail,
    song_loop true cancel_flag total songs fetched hist = (evs, r) ->
    numbered total (fetched + Z.of_nat (length (yields evs))) tail ->
    (r = None -> tail = []) ->
    numbered total fetched (evs ++ tail).
Proof.
  induction songs as [|s songs IH]; intros fetched hist evs r tail; simpl.
  - intros [= <- <-] Hn _. simpl in Hn. rewrite Z.add_0_r in Hn. exact Hn.
  - pose proof (poll_only_polls cancel_flag hist) as Hp.
    destruct (poll cancel_flag hist) as [polled stop]. simpl in Hp.
    destruct stop.
    + intros [= <- <-] _ Ht. rewrite (Ht eq_refl).
      apply numbered_polls; [exact Hp | apply numbered_nil].
    + destruct (song_loop _ _ _ _ _ _) as [evs1 r1] eqn:E.
      intros [= <- <-] Hn Ht.
      rewrite !yields_app, (only_polls_yields _ Hp) in Hn. simpl in Hn.
      rewrite <- !app_assoc. apply numbered_polls; [exact Hp|].
      simpl. apply numbered_song. eapply IH; [exact E | | exact Ht].
      replace (fetched + 1 + Z.of_nat (length (yields evs1)))
        with (fetched + Z.of_nat (S (length (yields evs1)))) by lia.
      exact Hn.
Qed.

Lemma second_pass_numbered `{PyEnv} c cancel_flag total albums :
  forall fetched hist w evs out w',
    second_pass c true cancel_flag total albums fetched hist w = (evs, out, w') ->
    numbered total fetched evs.
Proof.
  induction albums as [|album albums IH]; intros fetched hist w evs out w'; simpl.
  - intros [= <- _ _]. apply numbered_report, numbered_nil.
  - pose proof (poll_only_polls cancel_flag hist) as Hp.
    destruct (poll cancel_flag hist) as [polled stop]. simpl in Hp.
    assert (Hpolled : numbered total fetched polled).
    { rewrite <- (app_nil_r polled). apply numbered_polls; [exact Hp|].
      apply numbered_nil. }
    destruct stop; [intros [= <- _ _]; exact Hpolled|].
    destruct (py_get album "id" _) as [id|e]; [|intros [= <- _ _]; exact Hpolled].
    destruct (String.eqb (py_str id) "").
    + destruct (second_pass _ _ _ _ _ _ _ _) as [[evs1 out1] w1] eqn:E.
      intros [= <- _ _]. apply numbered_polls; [exact Hp|]. eapply IH, E.
    + destruct (get_album c (py_str id) w) as [r w1].
      destruct (py_iter _) as [items|e]; [|intros [= <- _ _]; exact Hpolled].
      destruct (song_loop _ _ _ _ _ _) as [evs1 [fetched1|]] eqn:Es.
      * destruct (second_pass _ _ _ _ _ _ _ _) as [[evs2 out2] w2] eqn:E.
        intros [= <- _ _]. apply numbered_polls; [exact Hp|].
        eapply song_loop_numbered; [exact Es | | discriminate].
        destruct (song_loop_progress _ _ _ _ _ _ _ _ Es) as [_ Hf].
        rewrite <- (Hf _ eq_refl). eapply IH, E.
      * intros [= <- _ _]. apply numbered_polls; [exact Hp|].
        rewrite <- (app_nil_r evs1).
        eapply song_loop_numbered; [exact Es | apply numbered_nil | reflexivity].
Qed.

Lemma numbered_before_yield total fetched evs :
  numbered total fetched evs ->
  forall pre song post,
    evs = pre ++ Yield song :: post ->
    exists pre',
      pre = pre' ++ [Progress (fetched + Z.of_nat (length (yields pre)) + 1) total].
Proof.
  induction 1 as [f|f b evs Hn IH|f evs Hn IH|f s0 evs Hn IH];
    intros pre song post Heq.
  - destruct pre; discriminate.
  - destruct pre as [|e pre]; [discriminate|]. injection Heq as <- Heq.
    destruct (IH _ _ _ Heq) as [pre' Hpre]. exists (Poll b :: pre').
    simpl. f_equal. exact Hpre.
  - destruct pre as [|e pre]; [discriminate|]. injection Heq as <- Heq.
    destruct (IH _ _ _ Heq) as [pre' Hpre]. exists (Progress f total :: pre').
    simpl. f_equal. exact Hpre.
  - destruct pre as [|e pre]; [discriminate|]. injection Heq as <- Heq.
    destruct pre as [|e pre].
    + exists []. simpl. rewrite Z.add_0_r. reflexivity.
    + injection Heq as <- Heq. destruct (IH _ _ _ Heq) as [pre' Hpre].
      exists (Progress (f + 1) total :: Yield s0 :: pre'). simpl.
      do 2 f_equal. rewrite Hpre at 1. do 3 f_equal. lia.
Qed.

Lemma numbered_total total fetched evs :
  numbered total fetched evs ->
  forall f t, In (Progress f t) evs -> t = total.
Proof.
  induction 1 as [f0|f0 b evs Hn IH|f0 evs Hn IH|f0 s0 evs Hn IH]; intros f t Hin.
  - destruct Hin.
  - destruct Hin as [[=]|Hin]. eapply IH, Hin.
  - destruct Hin as [[= _ <-]|Hin]; [reflexivity | eapply IH, Hin].
  - destruct Hin as [[= _ <-]|[[=]|Hin]]; [reflexivity | eapply IH, Hin].
Qed.

Lemma stream_numbered `{PyEnv} c page_size cancel_flag max_pages w evs out w' :
  iter_all_songs_stream c page_size true cancel_flag max_pages w = (evs, out, w') ->
  exists total, numbered total 0 evs.
Proof.
  unfold iter_all_songs_stream.
  destruct (first_pass _ _ _ _ _ _ _ _ _) as [[evs1 r1] w1] eqn:E1.
  pose proof (first_pass_only_polls _ _ _ _ _ _ _ _ _ _ _ _ E1) as Hp.
  assert (Hpolls : forall total, numbered total 0 evs1).
  { intros total. rewrite <- (app_nil_r evs1).
    apply numbered_polls; [exact Hp | apply numbered_nil]. }
  destruct r1 as [total1 albums| |e].
  - destruct (second_pass _ _ _ _ _ _ _ _) as [[evs2 out2] w2] eqn:E2.
    intros [= <- _ _]. exists total1. rewrite <- app_assoc.
    apply numbered_polls; [exact Hp|]. simpl. apply numbered_report.
    eapply second_pass_numbered, E2.
  - intros [= <- _ _]. exists 0. apply Hpolls.
  - intros [= <- _ _]. exists 0. apply Hpolls.
Qed.

(** With a progress callback, every song of a run is yielded right after
    a report whose count is that song's rank (1 for the first song yielded, 2
    for the second, ...), and all the reports of a run carry one and the same
    total. *)
Theorem progress_counts_each_song `{PyEnv} c page_size cancel_flag max_pages
    w evs out w' :
  iter_all_songs_stream c page_size true cancel_flag max_pages w = (evs, out, w') ->
  (forall pre song post,
      evs = pre ++ Yield song :: post ->
      exists pre' total,
        pre = pre' ++ [Progress (Z.of_nat (length (yields pre)) + 1) total])
  /\ (forall f1 t1 f2 t2,
        In (Progress f1 t1) evs -> In (Progress f2 t2) evs -> t1 = t2).
Proof.
  intros Hrun. apply stream_numbered in Hrun as [total Hn]. split.
  - intros pre song post Heq.
    destruct (numbered_before_yield _ _ _ Hn _ _ _ Heq) as [pre' Hpre].
    exists pre', total. rewrite Z.add_0_l in Hpre. exact Hpre.
  - intros f1 t1 f2 t2 H1 H2.
    rewrite (numbered_total _ _ _ Hn _ _ H1), (numbered_total _ _ _ Hn _ _ H2).
    reflexivity.
Qed.

Lemma progress_counts_each_song_witness :
  let run := iter_all_songs_stream (H := Fixture.library) (Fixture.client true)
               500 true None 10000 Fixture.fresh in
  exists pre post,
    fst (fst run) = pre ++ Yield (Fixture.song "s2") :: post
    /\ exists pre' total, pre = pre' ++ [Progress 2 total].
Proof.
  intros run.
  assert (Hrun : run = (fst (fst run), snd (fst run), snd run))
    by (vm_compute; reflexivity).
  assert (Heq : fst (fst run)
                = firstn 4 (fst (fst run))
                  ++ Yield (Fixture.song "s2") :: skipn 5 (fst (fst run)))
    by (vm_compute; reflexivity).
  exists (firstn 4 (fst (fst run))), (skipn 5 (fst (fst run))).
  split; [exact Heq|].
  exact (proj1 (progress_counts_each_song (H := Fixture.library) (Fixture.client true)
                  500 None 10000 Fixture.fresh _ _ _ Hrun) _ _ _ Heq).
Defined.

Lemma song_loop_uncancelled progress_cb total songs :
  forall fetched hist evs r,
    song_loop progress_cb None total songs fetched hist = (evs, r) ->
    r = Some (fetched + Z.of_nat (length (yields evs))).
Proof.
  induction songs as [|s songs IH]; intros fetched hist evs r; simpl.
  - intros [= <- <-]. simpl. rewrite Z.add_0_r. reflexivity.
  - destruct (song_loop _ _ _ _ _ _) as [evs1 r1] eqn:E. apply IH in E.
    intros [= <- <-]. rewrite E, !yields_app, report_yields. simpl. f_equal. lia.
Qed.

Lemma second_pass_final `{PyEnv} c total albums :
  forall fetched hist w evs w',
    second_pass c true None total albums fetched hist w = (evs, Returned, w') ->
    exists pre,
      evs = pre ++ [Progress (fetched + Z.of_nat (length (yields evs))) total].
Proof.
  induction albums as [|album albums IH]; intros fetched hist w evs w'; simpl.
  - intros [= <- _]. exists []. simpl. rewrite Z.add_0_r. reflexivity.
  - destruct (py_get album "id" _) as [id|e]; [|discriminate].
    destruct (String.eqb (py_str id) "").
    + destruct (second_pass _ _ _ _ _ _ _ _) as [[evs1 out1] w1] eqn:E.
      intros [= <- -> _]. eapply IH, E.
    + destruct (get_album c (py_str id) w) as [r w1].
      destruct (py_iter _) as [items|e]; [|discriminate].
      destruct (song_loop _ _ _ _ _ _) as [evs1 r1] eqn:Es.
      pose proof (song_loop_uncancelled _ _ _ _ _ _ _ Es) as ->.
      destruct (second_pass _ _ _ _ _ _ _ _) as [[evs2 out2] w2] eqn:E.
      intros [= <- -> _]. apply IH in E as [pre Hpre].
      exists (evs1 ++ pre). simpl. rewrite <- app_assoc. f_equal.
      rewrite Hpre at 1. do 3 f_equal. rewrite yields_app, length_app. lia.
Qed.

Lemma first_pass_uncancelled `{PyEnv} c page_size remaining :
  forall offset total all_albums hist w evs r w',
    first_pass c page_size None remaining offset total all_albums hist w
    = (evs, r, w') ->
    r <> Stopped.
Proof.
  induction remaining as [|remaining IH];
    intros offset total all_albums hist w evs r w'; simpl.
  - intros [= _ <- _]. discriminate.
  - destruct (get_album_list2 _ _ _ _ _) as [[albums|e] w1];
      [|intros [= _ <- _]; discriminate].
    destruct (negb (py_truthy albums)); [intros [= _ <- _]; discriminate|].
    destruct (py_iter albums) as [items|e]; [|intros [= _ <- _]; discriminate].
    destruct (page_song_count items 0) as [count|e];
      [|intros [= _ <- _]; discriminate].
    destruct (py_len albums) as [len|e]; [|intros [= _ <- _]; discriminate].
    destruct (len <? page_size)%Z; [intros [= _ <- _]; discriminate|].
    destruct (first_pass _ _ _ _ _ _ _ _ _) as [[evs1 r1] w2] eqn:E.
    apply IH in E. intros [= _ <- _]. exact E.
Qed.

(** A run without a cancellation predicate that comes to its end makes a
    last progress report, whose count is the number of songs the run has
    yielded. *)
Theorem complete_run_last_report `{PyEnv} c page_size max_pages w evs w' :
  iter_all_songs_stream c page_size true None max_pages w = (evs, Returned, w') ->
  exists pre total,
    evs = pre ++ [Progress (Z.of_nat (length (yields evs))) total].
Proof.
  unfold iter_all_songs_stream.
  destruct (first_pass _ _ _ _ _ _ _ _ _) as [[evs1 r1] w1] eqn:E1.
  pose proof (first_pass_only_polls _ _ _ _ _ _ _ _ _ _ _ _ E1) as Hp.
  pose proof (first_pass_uncancelled _ _ _ _ _ _ _ _ _ _ _ E1) as Hc.
  destruct r1 as [total1 albums| |e]; [|contradiction|discriminate].
  destruct (second_pass _ _ _ _ _ _ _ _) as [[evs2 out2] w2] eqn:E2.
  intros [= <- -> _]. apply second_pass_final in E2 as [pre Hpre].
  exists ((evs1 ++ report true 0 total1) ++ pre), total1.
  change (report true 0 total1) with [Progress 0 total1].
  rewrite <- (app_assoc _ pre). f_equal. rewrite Hpre at 1. do 3 f_equal.
  rewrite !yields_app, (only_polls_yields _ Hp). simpl. lia.
Qed.

Lemma complete_run_last_report_witness :
  let run := iter_all_songs_stream (H := Fixture.library) (Fixture.client true)
               500 true None 10000 Fixture.fresh in
  exists pre total, fst (fst run) = pre ++ [Progress 4 total].
Proof.
  intros run.
  refine (complete_run_last_report (H := Fixture.library) (Fixture.client true)
            500 10000 Fixture.fresh (fst (fst run)) (snd run) _).
  vm_compute. reflexivity.
Defined.

(** ** The collecting traversal *)

(** No album makes the album loop of [iter_all_songs] fail once the
    albums of the page are JSON objects: whether [get_album] raises or
    returns something that cannot be iterated, the loop comes to its end and
    returns what had been collected before it, followed by what it added. *)
Theorem album_failures_never_abort `{PyEnv} c albums :
  Forall (fun album => is_dict album = true) albums ->
  forall collected w,
    exists more,
      fst (collect_albums c albums collected w) = Ok (collected ++ more).
Proof.
  induction 1 as [|album albums Hd _ IH]; intros collected w; simpl.
  - exists []. rewrite app_nil_r. reflexivity.
  - destruct album as [| | | | |d]; try discriminate. simpl.
    destruct (String.eqb _ ""); [apply IH|].
    destruct (get_album c _ w) as [r w1].
    destruct (IH (extend_or_skip collected r) w1) as [more Hm]. rewrite Hm.
    unfold extend_or_skip. destruct r as [songs|e]; [|exists more; reflexivity].
    destruct (py_iter songs) as [items|e]; [|exists more; reflexivity].
    exists (items ++ more). rewrite app_assoc. reflexivity.
Qed.

Lemma album_failures_never_abort_witness :
  exists more,
    fst (collect_albums (H := Fixture.library) (Fixture.client true)
           [Fixture.album "a3" 1; Fixture.album "a4" 1] [] Fixture.fresh)
    = Ok ([] ++ more).
Proof.
  apply (album_failures_never_abort (H := Fixture.library) (Fixture.client true)
           [Fixture.album "a3" 1; Fixture.album "a4" 1]).
  repeat constructor.
Defined.

(** The two traversals part on an album whose songs value cannot be
    iterated (a number, a boolean, [None]): the generator raises the
    [TypeError] to its consumer, [iter_all_songs] passes the album over. *)
Theorem unusable_songs_raise_or_skip `{PyEnv} c progress_cb cancel_flag total album
    rest fetched hist w polled id songs e w1 collected :
  poll cancel_flag hist = (polled, false) ->
  py_get album "id" (JStr "") = Ok id ->
  py_str id <> "" ->
  get_album c (py_str id) w = (Ok songs, w1) ->
  py_iter songs = Raise e ->
  second_pass c progress_cb cancel_flag total (album :: rest) fetched hist w
  = (polled, Raised e, w1)
  /\ collect_albums c (album :: rest) collected w
     = collect_albums c rest collected w1.
Proof.
  intros Hp Hid Hne Hg Hi. cbn [second_pass collect_albums]. rewrite Hp, Hid.
  destruct (String.eqb_spec (py_str id) ""); [contradiction|].
  rewrite Hg. unfold extend_or_skip. rewrite Hi. split; reflexivity.
Qed.

Lemma unusable_songs_raise_or_skip_witness :
  let c := Fixture.client true in
  snd (fst (iter_all_songs_stream (H := Fixture.odd_songs) c 500 true None 10000
              Fixture.fresh))
  = Raised TypeError
  /\ fst (iter_all_songs (H := Fixture.odd_songs) c 500 10000 Fixture.fresh) = Ok [].
Proof.
  intros c.
  pose (w0 := snd (get_album_list2 (H := Fixture.odd_songs) c "alphabeticalByName"
                     500 0 Fixture.fresh)).
  destruct (unusable_songs_raise_or_skip (H := Fixture.odd_songs) c true None 1
              (Fixture.album "a1" 1) [] 0 [Progress 0 1] w0 [] (JStr "a1") (JNum 5)
              TypeError (snd (get_album (H := Fixture.odd_songs) c "a1" w0)) [])
    as [Hs Hc].
  - reflexivity.
  - reflexivity.
  - discriminate.
  - vm_compute. reflexivity.
  - reflexivity.
  - split.
    + change (snd (fst (let '(evs', out, w'') :=
                          second_pass (H := Fixture.odd_songs) c true None 1
                            [Fixture.album "a1" 1] 0 [Progress 0 1] w0 in
                        ([Progress 0 1] ++ evs', out, w''))) = Raised TypeError).
      rewrite Hs. reflexivity.
    + change (fst (collect_albums (H := Fixture.odd_songs) c [Fixture.album "a1" 1]
                     [] w0) = Ok []).
      rewrite Hc. reflexivity.
Defined.

(** ** The two traversals compared *)

Lemma fetch_steady `{PyEnv} c key endpoint params outer inner w1 w2 :
  steady c ->
  fst (fetch c key endpoint params outer inner w1)
  = fst (fetch c key endpoint params outer inner w2).
Proof.
  intros Hs. pose proof (Hs endpoint params w1 w2) as Hg. unfold fetch, bind.
  destruct (_get c endpoint params w1) as [[r1|e1] w1'],
           (_get c endpoint params w2) as [[r2|e2] w2'];
    simpl in Hg; try discriminate; injection Hg as ->; [|reflexivity].
  unfold lift, cache_result, ret.
  destruct (py_get r2 outer _) as [x|e1]; [|reflexivity].
  destruct (py_get x inner _) as [y|e1]; reflexivity.
Qed.

Lemma get_album_steady `{PyEnv} c album_id w1 w2 :
  steady c -> enable_cache c = false ->
  fst (get_album c album_id w1) = fst (get_album c album_id w2).
Proof.
  intros Hs Hc. rewrite !get_album_unfold, !cache_hit_disabled by exact Hc.
  apply fetch_steady, Hs.
Qed.

Lemma get_album_list2_steady `{PyEnv} c list_type size offset w1 w2 :
  steady c -> enable_cache c = false ->
  fst (get_album_list2 c list_type size offset w1)
  = fst (get_album_list2 c list_type size offset w2).
Proof.
  intros Hs Hc. rewrite !get_album_list2_unfold, !cache_hit_disabled by exact Hc.
  apply fetch_steady, Hs.
Qed.

Lemma collect_albums_steady `{PyEnv} c albums :
  steady c -> enable_cache c = false ->
  forall collected w1 w2,
    fst (collect_albums c albums collected w1)
    = fst (collect_albums c albums collected w2).
Proof.
  intros Hs Hc. induction albums as [|album albums IH]; intros collected w1 w2;
    simpl; [reflexivity|].
  destruct (py_get album "id" _) as [id|e]; [|reflexivity].
  destruct (String.eqb (py_str id) ""); [apply IH|].
  pose proof (get_album_steady c (py_str id) w1 w2 Hs Hc) as Hg.
  destruct (get_album c (py_str id) w1) as [r1 w1'],
           (get_album c (py_str id) w2) as [r2 w2'].
  simpl in Hg. subst r2. apply IH.
Qed.

Lemma collect_albums_app `{PyEnv} c l1 l2 :
  forall collected w,
    fst (collect_albums c (l1 ++ l2) collected w)
    = match collect_albums c l1 collected w with
      | (Ok collected', w') => fst (collect_albums c l2 collected' w')
      | (Raise e, _) => Raise e
      end.
Proof.
  induction l1 as [|album l1 IH]; intros collected w; simpl; [reflexivity|].
  destruct (py_get album "id" _) as [id|e]; [|reflexivity].
  destruct (String.eqb (py_str id) ""); [apply IH|].
  destruct (get_album c (py_str id) w) as [r w1]. apply IH.
Qed.

Lemma song_loop_yields_all progress_cb total songs :
  forall fetched hist evs r,
    song_loop progress_cb None total songs fetched hist = (evs, r) ->
    yields evs = songs.
Proof.
  induction songs as [|s songs IH]; intros fetched hist evs r; simpl.
  - intros [= <- _]. reflexivity.
  - destruct (song_loop _ _ _ _ _ _) as [evs1 r1] eqn:E. apply IH in E.
    intros [= <- _]. rewrite !yields_app, report_yields. simpl.
    f_equal. exact E.
Qed.

Lemma second_pass_collects `{PyEnv} c progress_cb total albums :
  steady c -> enable_cache c = false ->
  forall fetched hist w evs w' collected w2,
    second_pass c progress_cb None total albums fetched hist w
    = (evs, Returned, w') ->
    fst (collect_albums c albums collected w2) = Ok (collected ++ yields evs).
Proof.
  intros Hs Hc. induction albums as [|album albums IH];
    intros fetched hist w evs w' collected w2; simpl.
  - intros [= <- _]. rewrite report_yields, app_nil_r. reflexivity.
  - destruct (py_get album "id" _) as [id|e]; [|discriminate].
    destruct (String.eqb (py_str id) "").
    + destruct (second_pass _ _ _ _ _ _ _ _) as [[evs1 out1] w1] eqn:E.
      intros [= <- -> _]. eapply IH, E.
    + pose proof (get_album_steady c (py_str id) w w2 Hs Hc) as Hg.
      destruct (get_album c (py_str id) w) as [r w1],
               (get_album c (py_str id) w2) as [r2 w2'].
      simpl in Hg. subst r2.
      destruct (py_iter _) as [items|e] eqn:Hi; [|discriminate].
      destruct (song_loop _ _ _ _ _ _) as [evs1 r1] eqn:Es.
      pose proof (song_loop_uncancelled _ _ _ _ _ _ _ Es) as ->.
      apply song_loop_yields_all in Es.
      destruct (second_pass _ _ _ _ _ _ _ _) as [[evs2 out2] w3] eqn:E.
      intros [= <- -> _].
      rewrite (IH _ _ _ _ _ (extend_or_skip collected r) w2' E).
      simpl. rewrite yields_app, Es. f_equal.
      unfold extend_or_skip. destruct r as [songs|e].
      * rewrite Hi, app_assoc. reflexivity.
      * simpl in Hi. injection Hi as <-. reflexivity.
Qed.

Lemma first_pass_collects `{PyEnv} c page_size remaining :
  steady c -> enable_cache c = false ->
  forall offset total all_albums hist w evs total' all_albums' w1,
    first_pass c page_size None remaining offset total all_albums hist w
    = (evs, Counted total' all_albums', w1) ->
    exists more,
      all_albums' = all_albums ++ more
      /\ forall collected w2,
           fst (collect_pages c page_size remaining offset collected w2)
           = fst (collect_albums c more collected w2).
Proof.
  intros Hs Hc. induction remaining as [|remaining IH];
    intros offset total all_albums hist w evs total' all_albums' w1; simpl.
  - intros [= _ _ <- _]. exists []. rewrite app_nil_r. split; reflexivity.
  - destruct (get_album_list2 c _ _ _ w) as [[albums|e] w0] eqn:Hl; [|discriminate].
    assert (Hany : forall w2,
               fst (get_album_list2 c "alphabeticalByName" page_size offset w2)
               = Ok albums).
    { intros w2.
      rewrite (get_album_list2_steady c _ _ _ w2 w Hs Hc), Hl. reflexivity. }
    destruct (negb (py_truthy albums)) eqn:Ht.
    { intros [= _ _ <- _]. exists []. rewrite app_nil_r. split; [reflexivity|].
      intros collected w2. specialize (Hany w2).
      destruct (get_album_list2 c _ _ _ w2) as [r2 w2']. simpl in Hany. subst r2.
      rewrite Ht. reflexivity. }
    destruct (py_iter albums) as [items|e] eqn:Hi; [|discriminate].
    destruct (page_song_count items 0) as [count|e]; [|discriminate].
    destruct (py_len albums) as [len|e] eqn:Hn; [|discriminate].
    destruct (len <? page_size)%Z eqn:Hlt.
    { intros [= _ _ <- _]. exists items. split; [reflexivity|].
      intros collected w2. specialize (Hany w2).
      destruct (get_album_list2 c _ _ _ w2) as [r2 w2']. simpl in Hany. subst r2.
      rewrite Ht, Hi, Hn, Hlt.
      rewrite (collect_albums_steady c items Hs Hc collected w2 w2').
      destruct (collect_albums c items collected w2') as [[col'|e] w2'']; reflexivity. }
    destruct (first_pass _ _ _ _ _ _ _ _ _) as [[evs1 r1] w3] eqn:E.
    intros [= _ -> _]. apply IH in E as (more & -> & Hmore).
    exists (items ++ more). split; [rewrite app_assoc; reflexivity|].
    intros collected w2. specialize (Hany w2).
    destruct (get_album_list2 c _ _ _ w2) as [r2 w2']. simpl in Hany. subst r2.
    rewrite Ht, Hi, Hn, Hlt, collect_albums_app.
    rewrite (surjective_pairing (collect_albums c items collected w2)).
    rewrite (collect_albums_steady c items Hs Hc collected w2 w2').
    destruct (collect_albums c items collected w2') as [[col'|e] w2'']; simpl;
      [|reflexivity].
    rewrite Hmore. apply collect_albums_steady; assumption.
Qed.

(** On a client that does not cache and a server whose answer depends on
    the request alone, [iter_all_songs] returns exactly the songs the
    generator yields, in the same order, whenever the generator run without
    cancellation predicate comes to its end. *)
Theorem collected_songs_are_streamed_songs `{PyEnv} c page_size progress_cb
    max_pages w evs w' :
  steady c ->
  enable_cache c = false ->
  iter_all_songs_stream c page_size progress_cb None max_pages w
  = (evs, Returned, w') ->
  fst (iter_all_songs c page_size max_pages w) = Ok (yields evs).
Proof.
  intros Hs Hc. unfold iter_all_songs_stream, iter_all_songs.
  destruct (first_pass _ _ _ _ _ _ _ _ _) as [[evs1 r1] w1] eqn:E1.
  pose proof (first_pass_only_polls _ _ _ _ _ _ _ _ _ _ _ _ E1) as Hp.
  pose proof (first_pass_uncancelled _ _ _ _ _ _ _ _ _ _ _ E1) as Hn.
  destruct r1 as [total1 albums| |e]; [|contradiction|discriminate].
  apply (first_pass_collects c page_size _ Hs Hc) in E1 as (more & Hm & Hmore).
  simpl in Hm. subst albums.
  destruct (second_pass _ _ _ _ _ _ _ _) as [[evs2 out2] w2] eqn:E2.
  intros [= <- -> _]. rewrite Hmore.
  rewrite (second_pass_collects c _ _ _ Hs Hc _ _ _ _ _ [] w E2).
  rewrite !yields_app, report_yields, (only_polls_yields _ Hp). reflexivity.
Qed.

Lemma scripted_steady table bodies c :
  steady (H := Fixture.scripted table bodies) c.
Proof.
  intros endpoint params w1 w2. unfold _get, _request.
  change (build_request (H := Fixture.scripted table bodies) c (length (sent w1))
            endpoint params GET [])
    with (build_request (H := Fixture.scripted table bodies) c (length (sent w2))
            endpoint params GET []).
  simpl. destruct (Fixture.route table _) as [exc|data]; [reflexivity|].
  destruct (Fixture.decode bodies data); reflexivity.
Qed.

Lemma collected_songs_are_streamed_songs_witness :
  fst (iter_all_songs (H := Fixture.library) (Fixture.client false) 500 10000
         Fixture.fresh)
  = Ok [Fixture.song "s1"; Fixture.song "s2"; Fixture.song "s3"; Fixture.song "s4"].
Proof.
  pose (run := iter_all_songs_stream (H := Fixture.library) (Fixture.client false)
                 500 true None 10000 Fixture.fresh).
  assert (Hrun : run = (fst (fst run), Returned, snd run))
    by (vm_compute; reflexivity).
  exact (collected_songs_are_streamed_songs (H := Fixture.library)
           (Fixture.client false) 500 true 10000 Fixture.fresh
           (fst (fst run)) (snd run)
           (scripted_steady _ _ _) eq_refl Hrun).
Defined.
